(** * TraderLens-AI (Tradl AI): news pipeline, retrieval ranking and dashboard state

    A shallow embedding of the algorithms this repository documents and
    ships:

    - the dashboard's toggle handlers ([toggleBookmark], [toggleUpvote] of
      the React [App] component);
    - the deduplication check [check_duplicate];
    - the stock-impact mapping [map_impact] with its [IMPACT_TYPES] table;
    - the query-time ranking [rank_results];
    - the sentiment guard of [analyze] and [analyze_sentiment];
    - the LLM failure recovery of the query path;
    - the query analysis (entity detection and intent).

    Python and JavaScript numbers that carry similarities, confidences and
    scores are exact rationals ([Q]) where only their values and bounds
    matter, and binary64 floats where rounding decides the result: the
    order [rank_results] returns and the number on the impact ring.
    Counters are integers ([Z]), a Python [str] is its list of code
    points, and Python dicts with a fixed key set are records.

    The first part holds the embedding, module by module; the second part
    holds the properties, in modules named after the ones they are about. *)

From Stdlib Require Import ZArith QArith Qminmax Lqa Lia Bool List Permutation Sorted.
From Stdlib Require Import Ascii String Qround DecimalString.
From Stdlib Require Import Floats.
From stdpp Require Import base gmap sets strings.

Import ListNotations.

Local Open Scope Z_scope.

#[local] Set Warnings "-clear-no-such-hyp,-inexact-float".

(* ===================================================================== *)
(** * Dashboard state: bookmarks and upvotes *)
(* ===================================================================== *)

Module Dashboard.

(** The slice of the [App] component's state the toggle handlers touch:
    [bookmarks] and [userUpvotes] are [Set<string>], [upvotes] is a
    [Record<string, number>].  Counts are produced by
    [Math.floor(Math.random() * 50) + 5] and moved by one, so they are
    integers. *)
Record AppState : Type := mkAppState {
  bookmarks   : gset string;
  upvotes     : gmap string Z;
  userUpvotes : gset string
}.

(** [u[id] || 0]: a missing entry and a zero entry both read as [0]. *)
Definition count_or_zero (u : gmap string Z) (id : string) : Z :=
  match u !! id with
  | Some n => n
  | None => 0
  end.

(** [toggleBookmark]: copy the set, delete the id when present, add it
    otherwise. *)
Definition toggleBookmark (id : string) (st : AppState) : AppState :=
  let prev := bookmarks st in
  let next := if decide (id ∈ prev) then prev ∖ {[ id ]} else prev ∪ {[ id ]} in
  mkAppState next (upvotes st) (userUpvotes st).

(** [toggleUpvote]: the membership set is flipped for [id] and the count
    of [id] is moved by one in the matching direction, through the
    [(u[id] || 0)] fallback. *)
Definition toggleUpvote (id : string) (st : AppState) : AppState :=
  let prev := userUpvotes st in
  let u := upvotes st in
  if decide (id ∈ prev) then
    mkAppState (bookmarks st)
               (<[ id := count_or_zero u id - 1 ]> u)
               (prev ∖ {[ id ]})
  else
    mkAppState (bookmarks st)
               (<[ id := count_or_zero u id + 1 ]> u)
               (prev ∪ {[ id ]}).

(** What a [NewsCard] shows: [upvotes[result.article.id] || 0]. *)
Definition displayed_upvotes (st : AppState) (id : string) : Z :=
  count_or_zero (upvotes st) id.

(** [hasUpvoted] and [isBookmarked] of a card. *)
Definition hasUpvoted (st : AppState) (id : string) : bool :=
  bool_decide (id ∈ userUpvotes st).

Definition isBookmarked (st : AppState) (id : string) : bool :=
  bool_decide (id ∈ bookmarks st).

End Dashboard.

(* ===================================================================== *)
(** * Stable sorting *)
(* ===================================================================== *)

(** Python's [sorted] is stable, also under [reverse=True]: elements whose
    keys compare equal keep their input order.  The model is insertion
    sort over a boolean total preorder [leb]; an element is inserted in
    front of the first element it is [leb] to, so it stays in front of the
    later elements of its own class. *)
Module StableSort.
Section Sorting.

Context {A : Type}.
Variable leb : A -> A -> bool.

Fixpoint insert (x : A) (l : list A) : list A :=
  match l with
  | [] => [x]
  | y :: l' => if leb x y then x :: y :: l' else y :: insert x l'
  end.

Fixpoint sort (l : list A) : list A :=
  match l with
  | [] => []
  | x :: l' => insert x (sort l')
  end.

(** The class of [z]: the elements that compare equal to it. *)
Definition same_class (z x : A) : bool := leb z x && leb x z.

End Sorting.
End StableSort.

(* ===================================================================== *)
(** * Errors and the state-and-exception monad of the pipeline *)
(* ===================================================================== *)

Module Errors.

(** Modelled from the spec: the error taxonomy of the error-handling
    design (the sources declare no exception classes of their own).
    [PythonError] is an exception of any other class, Python's own or a
    library's, by class name: the [ConnectionError] of an unreachable
    provider, for one. *)
Inductive PipelineError : Type :=
| InvalidInputError
| DependencyUnavailableError
| EnrichmentFailure
| PartialStorageFailure
| ProviderTimeout
| PythonError (class_name : string).

(** A Python call either returns a value or raises. *)
Inductive outcome (A : Type) : Type :=
| Returned (a : A)
| Raised (e : PipelineError).

Arguments Returned {A} a.
Arguments Raised {A} e.

(** Computations over a store [S] that may raise: a raise skips every
    statement after it and leaves the store as it was at the raise. *)
Definition M (S A : Type) : Type := S -> outcome A * S.

Definition ret {S A : Type} (a : A) : M S A := fun s => (Returned a, s).

Definition bind {S A B : Type} (m : M S A) (k : A -> M S B) : M S B :=
  fun s =>
    match m s with
    | (Returned a, s') => k a s'
    | (Raised e, s') => (Raised e, s')
    end.

(** A call into a collaborator that does not touch the store. *)
Definition call {S A : Type} (r : outcome A) : M S A := fun s => (r, s).

(** Reading the store. *)
Definition read {S A : Type} (f : S -> A) : M S A := fun s => (Returned (f s), s).

End Errors.

(* ===================================================================== *)
(** * Deduplication *)
(* ===================================================================== *)

Module Dedup.
Import Errors.

Notation "'do' x '<-' m ';' k" := (bind m (fun x => k))
  (at level 10, x name, m at level 100, k at level 200).

(** [Settings.dedup_threshold] of the configuration, also the default of
    the [DEDUP_THRESHOLD] environment variable. *)
Definition dedup_threshold : Q := 0.70.

Section WithProvider.

(** The embedding model and the vector store's distance are
    collaborators: [embed_model.encode] may raise, the distance of two
    embeddings is a number. *)
Variable Embedding : Type.
Variable encode : string -> outcome Embedding.
Variable distance : Embedding -> Embedding -> Q.

Record NewsArticle : Type := mkArticle {
  article_id : string;
  content : string
}.

(** One entry of the ["financial_news"] collection: id, embedding and
    the [cluster_id] of its metadata. *)
Record StoredDoc : Type := mkDoc {
  doc_id : string;
  doc_embedding : Embedding;
  doc_cluster_id : string
}.

Definition Collection : Type := list StoredDoc.

Definition nearer (a b : StoredDoc * Q) : bool := Qle_bool (snd a) (snd b).

(** [collection.query(query_embeddings=[embedding], n_results=n)]: the
    [n] stored entries nearest to [embedding], nearest first, each with
    its distance. *)
Definition collection_query (embedding : Embedding) (n : nat) (coll : Collection)
  : list (StoredDoc * Q) :=
  take n (StableSort.sort nearer
            (map (fun d => (d, distance embedding (doc_embedding d))) coll)).

(** The loop of step 3 and the return of step 4.  The snippet leaves
    [existing_cluster_id] and [new_cluster_id] unbound.
    Modelled from the spec: [existing_cluster_id] is the cluster id of
    the neighbour that matched, [new_cluster_id] is the article's own
    id. *)
Fixpoint scan_neighbours (similar : list (StoredDoc * Q)) (new_cluster_id : string)
  : bool * Q * string :=
  match similar with
  | [] => (false, 0.0, new_cluster_id)
  | (doc, dist) :: rest =>
      let similarity := 1 - dist in
      if Qle_bool 0.85 similarity
      then (true, similarity, doc_cluster_id doc)
      else scan_neighbours rest new_cluster_id
  end%Q.

(** [check_duplicate(article) -> Tuple[bool, float, str]]. *)
Definition check_duplicate (article : NewsArticle) : M Collection (bool * Q * string) :=
  do embedding <- call (encode (content article));
  do similar <- read (collection_query embedding 5);
  ret (scan_neighbours similar (article_id article)).

(** [best = max(similarity over neighbors)], when there is a neighbour. *)
Fixpoint best_similarity (similar : list (StoredDoc * Q)) : option Q :=
  match similar with
  | [] => None
  | (_, dist) :: rest =>
      match best_similarity rest with
      | None => Some (1 - dist)%Q
      | Some b => Some (Qmax (1 - dist) b)
      end
  end.

End WithProvider.

Arguments mkDoc {Embedding} _ _ _.
Arguments doc_id {Embedding} _.
Arguments doc_embedding {Embedding} _.
Arguments doc_cluster_id {Embedding} _.
Arguments collection_query {Embedding} _ _ _ _.
Arguments scan_neighbours {Embedding} _ _.
Arguments check_duplicate {Embedding} _ _ _ _.
Arguments best_similarity {Embedding} _.

(** A one-dimensional toy provider for the examples: an embedding is a
    rational, the distance is the absolute difference. *)
Definition toy_encode (s : string) : outcome Q :=
  if String.eqb s "provider down" then Raised DependencyUnavailableError
  else Returned (inject_Z (Z.of_nat (String.length s)) / 100)%Q.

Definition toy_distance (a b : Q) : Q :=
  (if Qle_bool a b then b - a else a - b)%Q.

Definition toy_store : list (StoredDoc Q) :=
  [ mkDoc "n1" 0.30%Q "n1" ].

(** A provider that cannot be reached: every call raises Python's
    [ConnectionError]. *)
Definition unreachable_encode (s : string) : outcome Q :=
  Raised (PythonError "ConnectionError").

(** A neighbour the loop accepts: its similarity reaches the hard-coded
    threshold. *)
Definition close_enough {Embedding : Type} (p : StoredDoc Embedding * Q) : Prop :=
  (0.85 <= 1 - snd p)%Q.

End Dedup.

(* ===================================================================== *)
(** * Stock impact mapping *)
(* ===================================================================== *)

Module Impact.

(** Entity categories of the NER pipeline. *)
Inductive EntityType : Type :=
| COMPANY | SECTOR_ENTITY | REGULATOR | PERSON | EVENT | METRIC.

Record Entity : Type := mkEntity {
  entity_type : EntityType;
  entity_value : string
}.

Record Company : Type := mkCompany {
  symbol : string;
  sector : string
}.

Inductive ImpactType : Type :=
| DIRECT | SECTOR | REGULATORY | SUPPLY_CHAIN.

Definition ImpactType_eqb (a b : ImpactType) : bool :=
  match a, b with
  | DIRECT, DIRECT | SECTOR, SECTOR | REGULATORY, REGULATORY
  | SUPPLY_CHAIN, SUPPLY_CHAIN => true
  | _, _ => false
  end.

(** The [IMPACT_TYPES] table. *)
Definition IMPACT_TYPES_confidence (t : ImpactType) : Q :=
  match t with
  | DIRECT => 1.0
  | SECTOR => 0.7
  | REGULATORY => 0.6
  | SUPPLY_CHAIN => 0.5
  end.

Definition IMPACT_TYPES_reason (t : ImpactType) : string :=
  match t with
  | DIRECT => "Company directly mentioned"
  | SECTOR => "Sector-wide impact"
  | REGULATORY => "Regulator policy impact"
  | SUPPLY_CHAIN => "Supply chain connection"
  end.

(** The dict [map_impact] appends: keys ["stock"], ["type"],
    ["confidence"]. *)
Record ImpactRow : Type := mkRow {
  stock : string;
  type : ImpactType;
  confidence : Q
}.

(** Modelled from the spec: a finished [StockImpact] of the data model,
    which [deduplicate_and_rank] returns (symbol, impact type, confidence,
    reasoning). *)
Record StockImpact : Type := mkStockImpact {
  stock_symbol : string;
  impact_type : ImpactType;
  impact_confidence : Q;
  reasoning : string
}.

(** ** Deduplication and ranking of impacts *)

(** [map_impact] returns through [deduplicate_and_rank], which the sources
    do not define.  It is modelled from the spec, in the definitions from
    here to [deduplicate_and_rank]. *)

(** Modelled from the spec: the identity of an impact inside
    [deduplicate_and_rank], the (symbol, impact_type) pair. *)
Definition same_pair (a b : StockImpact) : bool :=
  String.eqb (stock_symbol a) (stock_symbol b)
  && ImpactType_eqb (impact_type a) (impact_type b).

(** Modelled from the spec: the deduplication rule of
    [deduplicate_and_rank] for two paths to one pair, keep the maximal
    confidence and concatenate the reasoning strings. *)
Definition merge (kept new : StockImpact) : StockImpact :=
  mkStockImpact (stock_symbol kept) (impact_type kept)
                (Qmax (impact_confidence kept) (impact_confidence new))
                (String.append (reasoning kept) (reasoning new)).

(** Modelled from the spec: one step of [deduplicate_and_rank]; a row is
    merged into the entry of its pair or appended as a new entry, so no
    pair gets two rows. *)
Fixpoint absorb (x : StockImpact) (acc : list StockImpact) : list StockImpact :=
  match acc with
  | [] => [x]
  | y :: acc' => if same_pair y x then merge y x :: acc' else y :: absorb x acc'
  end.

(** Modelled from the spec: the deduplication half of
    [deduplicate_and_rank], over the rows in the order they were
    produced. *)
Definition deduplicate (l : list StockImpact) : list StockImpact :=
  fold_left (fun acc x => absorb x acc) l [].

(** Modelled from the spec: the impact type priority of the ranking in
    [deduplicate_and_rank], direct > sector > regulatory > supply_chain. *)
Definition priority (t : ImpactType) : nat :=
  match t with
  | DIRECT => 0
  | SECTOR => 1
  | REGULATORY => 2
  | SUPPLY_CHAIN => 3
  end.

(** Modelled from the spec: the order of the ranking in
    [deduplicate_and_rank]; [a] ranks no later than [b] when its
    confidence is higher, or equal with a type of the same or higher
    priority. *)
Definition rank_leb (a b : StockImpact) : bool :=
  negb (Qle_bool (impact_confidence a) (impact_confidence b))
  || (Qeq_bool (impact_confidence a) (impact_confidence b)
      && (priority (impact_type a) <=? priority (impact_type b))%nat).

(** Modelled from the spec: the ranking half of [deduplicate_and_rank], a
    sort descending by confidence with the type priority as stable
    secondary key. *)
Definition rank (l : list StockImpact) : list StockImpact :=
  StableSort.sort rank_leb l.

(** Modelled from the spec: how [deduplicate_and_rank] reads a row of
    [map_impact] as a [StockImpact]; the row has no reasoning of its own
    and takes the reason of its type in [IMPACT_TYPES], the only
    justification text the sources give. *)
Definition to_stock_impact (r : ImpactRow) : StockImpact :=
  mkStockImpact (stock r) (type r) (confidence r) (IMPACT_TYPES_reason (type r)).

(** Modelled from the spec: [deduplicate_and_rank], called by
    [map_impact] and absent from the sources; deduplicate per pair, then
    rank. *)
Definition deduplicate_and_rank (impacts : list ImpactRow) : list StockImpact :=
  rank (deduplicate (map to_stock_impact impacts)).

(** ** [map_impact] *)

Section Catalog.

(** The catalog lookups [map_impact] calls. *)
Variable lookup_company : string -> Company.
Variable get_sector_peers : string -> list Company.
Variable get_regulated_companies : string -> list Company.

(** The rows one entity appends: the body of the [for] loop. *)
Definition rows_of_entity (entity : Entity) : list ImpactRow :=
  match entity_type entity with
  | COMPANY =>
      let company := lookup_company (entity_value entity) in
      mkRow (symbol company) DIRECT 1.0
      :: map (fun peer => mkRow (symbol peer) SECTOR 0.7)
             (get_sector_peers (sector company))
  | REGULATOR =>
      map (fun company => mkRow (symbol company) REGULATORY 0.6)
          (get_regulated_companies (entity_value entity))
  | _ => []
  end.

(** The [impacts] list when the loop is over. *)
Definition collect_impacts (entities : list Entity) : list ImpactRow :=
  flat_map rows_of_entity entities.

Definition map_impact (entities : list Entity) : list StockImpact :=
  deduplicate_and_rank (collect_impacts entities).

(** The spec's wording of the sector band:
    [0.6 + 0.2 * min(1, directMentionsInSector / 3)], where
    [directMentionsInSector] counts the distinct companies of the sector
    that were directly mentioned. *)
Definition directMentionsInSector (entities : list Entity) (s : string) : nat :=
  length
    (nodup string_dec
       (map symbol
          (List.filter (fun c => String.eqb (sector c) s)
             (map (fun e => lookup_company (entity_value e))
                  (List.filter (fun e => match entity_type e with COMPANY => true | _ => false end)
                               entities))))).

Definition spec_sector_confidence (mentions : nat) : Q :=
  0.6 + 0.2 * Qmin 1 (inject_Z (Z.of_nat mentions) / 3).

End Catalog.

(** A small catalog for the examples. *)
Definition toy_lookup_company (alias : string) : Company :=
  if String.eqb alias "HDFC Bank" then mkCompany "HDFCBANK" "Banking"
  else if String.eqb alias "ICICI Bank" then mkCompany "ICICIBANK" "Banking"
  else if String.eqb alias "TCS" then mkCompany "TCS" "IT"
  else mkCompany alias "Unknown".

Definition toy_sector_peers (s : string) : list Company :=
  if String.eqb s "Banking"
  then [mkCompany "HDFCBANK" "Banking"; mkCompany "ICICIBANK" "Banking"]
  else if String.eqb s "IT" then [mkCompany "TCS" "IT"]
  else [].

Definition toy_regulated (r : string) : list Company :=
  if String.eqb r "RBI"
  then [mkCompany "HDFCBANK" "Banking"; mkCompany "ICICIBANK" "Banking"]
  else [].

Definition toy_map_impact : list Entity -> list StockImpact :=
  map_impact toy_lookup_company toy_sector_peers toy_regulated.

(** ** Vocabulary of the properties *)

Definition pair_of (i : StockImpact) : string * ImpactType :=
  (stock_symbol i, impact_type i).

(** The entries [acc] holds after the rows [processed]: one per pair,
    each the merge of the rows of its pair in input order, and no pair
    lost. *)
Record summarises (acc processed : list StockImpact) : Prop := {
  sum_nodup : List.NoDup (map pair_of acc);
  sum_merge : forall o, In o acc ->
      exists p0 ps, List.filter (same_pair o) processed = p0 :: ps
                    /\ o = fold_left merge ps p0;
  sum_cover : forall p, In p processed -> In (pair_of p) (map pair_of acc)
}.

(** [a] may stand before [b] in the ranked list. *)
Definition ranks_before (a b : StockImpact) : Prop :=
  (impact_confidence b < impact_confidence a)%Q
  \/ ((impact_confidence a == impact_confidence b)%Q
      /\ (priority (impact_type a) <= priority (impact_type b))%nat).

(** ** A company that is not in the catalog (edge case 5) *)

(** The [StockImpact] the fallback builds: its keyword arguments
    [sector], [confidence] and [impact_type]. *)
Record SectorFallback : Type := mkSectorFallback {
  fallback_sector : string;
  fallback_confidence : Q;
  fallback_impact_type : string
}.

(** The fallback to a sector-based impact:
    [if company not in COMPANIES:
         detected_sector = detect_sector_from_text(content)
         if detected_sector:
             return StockImpact(sector=detected_sector, confidence=0.5,
                                impact_type="sector")].
    [None] stands for the two ways past the [return]; an empty sector
    name is falsy. *)
Definition missing_company_fallback (COMPANIES : list string)
           (detect_sector_from_text : string -> option string)
           (company content : string) : option SectorFallback :=
  if existsb (String.eqb company) COMPANIES then None
  else match detect_sector_from_text content with
       | Some detected_sector =>
           if String.eqb detected_sector "" then None
           else Some (mkSectorFallback detected_sector 0.5 "sector")
       | None => None
       end.

End Impact.

(* ===================================================================== *)
(** * Sentiment *)
(* ===================================================================== *)

Module Sentiment.
Import Errors.

(** A Python [str] is a sequence of code points, and [len] counts them. *)
Definition str : Type := list N.

(** ASCII text as a [str], for the examples. *)
Definition str_of (s : string) : str := map N_of_ascii (list_ascii_of_string s).

(** The characters [str.strip()] removes, those [str.isspace] holds of:
    U+0009 to U+000D, U+001C to U+0020, U+0085, U+00A0, U+1680,
    U+2000 to U+200A, U+2028, U+2029, U+202F, U+205F and U+3000. *)
Definition isspace (c : N) : bool :=
  ((9 <=? c) && (c <=? 13) || (28 <=? c) && (c <=? 32)
   || (c =? 133) || (c =? 160) || (c =? 5760)
   || (8192 <=? c) && (c <=? 8202)
   || (c =? 8232) || (c =? 8233) || (c =? 8239) || (c =? 8287) || (c =? 12288))%N.

(** [str.lstrip()], [str.rstrip()] and [str.strip()]. *)
Fixpoint lstrip (s : str) : str :=
  match s with
  | [] => []
  | c :: s' => if isspace c then lstrip s' else s
  end.

Fixpoint rstrip (s : str) : str :=
  match s with
  | [] => []
  | c :: s' =>
      match rstrip s' with
      | [] => if isspace c then [] else [c]
      | t => c :: t
      end
  end.

Definition strip (s : str) : str := rstrip (lstrip s).

Section Classifier.

(** What [analyze] goes on to do with a text that passes the guard,
    which the sources leave out. *)
Variable SentimentResult : Type.
Variable inference : str -> SentimentResult.

(** [analyze]: [if not text or len(text.strip()) < 50: return None]. *)
Definition analyze (text : str) : option SentimentResult :=
  if (match text with [] => true | _ :: _ => false end
      || (length (strip text) <? 50)%nat)%bool
  then None
  else Some (inference text).

End Classifier.

Arguments analyze {SentimentResult} inference text.

(** ** [analyze_sentiment] *)

(** One entry of the list the [transformers] pipeline returns, and the
    dict [analyze_sentiment] returns: the keys ["label"] and ["score"]. *)
Record LabelScore : Type := mkLabelScore {
  label : string;
  score : float
}.

(** [analyze_sentiment]:
    [result = sentiment_analyzer(text[:512])[0]], then the dict of
    [result["label"]] and [result["score"]]. *)
Definition analyze_sentiment (sentiment_analyzer : str -> outcome (list LabelScore))
           (text : str) : outcome LabelScore :=
  match sentiment_analyzer (take 512 text) with
  | Returned (result :: _) => Returned (mkLabelScore (label result) (score result))
  | Returned [] => Raised (PythonError "IndexError")
  | Raised e => Raised e
  end.




End Sentiment.

(* ===================================================================== *)
(** * Query engine: ranking and answer synthesis *)
(* ===================================================================== *)

Module Query.

(** ** Result ranking, in exact arithmetic *)

(** The loop of [rank_results] with every sum taken exactly: the value
    each score has before rounding, for bounds on the score and the
    comparison with the spec's formula.  [QueryRanking] has the loop on
    floats. *)

(** A retrieved result as [rank_results] reads and writes it.  Times are
    in seconds; [(now - published_date).days] is the floor of the
    difference in days. *)
Record Result : Type := mkResult {
  result_id : string;
  vector_similarity : Q;
  published_date : Z;
  is_original : bool;
  final_score : Q
}.

Definition set_final_score (r : Result) (s : Q) : Result :=
  mkResult (result_id r) (vector_similarity r) (published_date r) (is_original r) s.

Section Ranking.

(** The query, the clock and the two match predicates are given. *)
Variable QueryT : Type.
Variable now : Z.
Variable has_direct_entity_match : QueryT -> Result -> bool.
Variable has_sector_match : QueryT -> Result -> bool.

Definition days_old (r : Result) : Z := (now - published_date r) / 86400.

(** The body of the [for] loop: the score written to [final_score]. *)
Definition score_of (query : QueryT) (result : Result) : Q :=
  (let score := 0.0 in
   let score := score + vector_similarity result * 0.4 in
   let score :=
     if has_direct_entity_match query result then score + 0.3
     else if has_sector_match query result then score + 0.15
     else score in
   let score := score + Qmax 0 (0.2 - inject_Z (days_old result) * 0.02) in
   let score := if is_original result then score + 0.1 else score in
   score)%Q.

Definition by_final_score_desc (a b : Result) : bool :=
  Qle_bool (final_score b) (final_score a).

(** [rank_results]: score every result, then
    [sorted(results, key=lambda x: x.final_score, reverse=True)]. *)
Definition rank_results (query : QueryT) (results : list Result) : list Result :=
  StableSort.sort by_final_score_desc
    (map (fun r => set_final_score r (score_of query r)) results).

(** The spec's wording of the score, for comparison:
    [0.4 * semanticSimilarity + 0.3 * direct + 0.15 * sector
     + 0.2 * recencyBonus - penalty] with
    [recencyBonus = max(0, 0.2 - 0.02 * daysSincePublished)]. *)
Definition spec_recencyBonus (days : Z) : Q :=
  Qmax 0 (0.2 - 0.02 * inject_Z days)%Q.

Definition spec_final_score (query : QueryT) (r : Result) (penalty : Q) : Q :=
  (0.4 * vector_similarity r
   + 0.3 * (if has_direct_entity_match query r then 1 else 0)
   + 0.15 * (if has_sector_match query r then 1 else 0)
   + 0.2 * spec_recencyBonus (days_old r)
   - penalty)%Q.

(** The score in closed form. *)
Definition entity_bonus (query : QueryT) (r : Result) : Q :=
  if has_direct_entity_match query r then 0.3
  else if has_sector_match query r then 0.15
  else 0.

Definition recency_bonus (r : Result) : Q :=
  Qmax 0 (0.2 - inject_Z (days_old r) * 0.02).

Definition original_bonus (r : Result) : Q :=
  if is_original r then 0.1 else 0.

End Ranking.

Arguments days_old now r : assert.
Arguments score_of {QueryT} now has_direct_entity_match has_sector_match query result.
Arguments rank_results {QueryT} now has_direct_entity_match has_sector_match query results.
Arguments spec_final_score {QueryT} now has_direct_entity_match has_sector_match query r penalty.
Arguments entity_bonus {QueryT} has_direct_entity_match has_sector_match query r.

(** Two stale results of one score, the older first, and one fresh
    duplicate. *)
Definition toy_now : Z := 100 * 86400.

Definition toy_older : Result := mkResult "old" 0.5 (toy_now - 30 * 86400) true 0.
Definition toy_newer : Result := mkResult "new" 0.5 (toy_now - 20 * 86400) true 0.
Definition toy_fresh : Result := mkResult "dup" 0 toy_now false 0.

Definition toy_rank : list Result -> list Result :=
  rank_results toy_now (fun (_ : unit) _ => false) (fun _ _ => false) tt.

(** ** Answer synthesis and its failure recovery *)

(** The exceptions [llm.generate] can raise: the two classes the recovery
    block names, and any other class. *)
Inductive Exception : Type :=
| RateLimitError
| TimeoutError
| OtherException (class_name : string).

Inductive raises (A : Type) : Type :=
| Return (a : A)
| Raise (e : Exception).

Arguments Return {A} a.
Arguments Raise {A} e.

Record QueryResponse : Type := mkQueryResponse {
  results : list Result;
  synthesized_answer : option string
}.

Section Synthesis.

Variable llm_generate : string -> raises string.

(** The recovery block of failure mode 1:
    [try: response = await llm.generate(prompt)
     except (RateLimitError, TimeoutError):
         return QueryResponse(results=results, synthesized_answer=None)].
    An exception of another class is not caught and leaves the function.
    Modelled from the spec: what follows the [try] on success, where the
    response carries the generated answer next to the same results. *)
Definition synthesize (prompt : string) (results : list Result) : raises QueryResponse :=
  match llm_generate prompt with
  | Return response => Return (mkQueryResponse results (Some response))
  | Raise RateLimitError => Return (mkQueryResponse results None)
  | Raise TimeoutError => Return (mkQueryResponse results None)
  | Raise (OtherException c) => Raise (OtherException c)
  end.

End Synthesis.

End Query.

(* ===================================================================== *)
(** * Query analysis: entity detection and intent *)
(* ===================================================================== *)

Module QueryAnalysis.

(** Modelled from the spec: the entity types of the data model. *)
Inductive EntityKind : Type := company | sector | regulator | event.

(** Modelled from the spec: equality of entity types. *)
Definition EntityKind_eqb (a b : EntityKind) : bool :=
  match a, b with
  | company, company | sector, sector | regulator, regulator | event, event => true
  | _, _ => false
  end.

(** Modelled from the spec: an [Entity] of the data model, with type,
    canonical value and confidence (the sources do not declare it). *)
Record DetectedEntity : Type := mkDetected {
  kind : EntityKind;
  value : string;
  confidence : Q
}.

(** Modelled from the spec: the [EntityExtractionResult] of [extract],
    one list of entities per type. *)
Record EntityExtractionResult : Type := mkExtraction {
  companies : list DetectedEntity;
  sectors : list DetectedEntity;
  regulators : list DetectedEntity;
  events : list DetectedEntity
}.

(** Modelled from the spec: the Entity Catalog data format, absent from
    the sources; company name and aliases to ticker and sector, regulator
    name to regulated sectors, sector to keyword list. *)
Record CompanyEntry : Type := mkCompanyEntry {
  canonical_name : string;
  ticker : string;
  company_sector : string;
  aliases : list string
}.

(** Modelled from the spec: the whole Entity Catalog. *)
Record EntityCatalog : Type := mkCatalog {
  company_entries : list CompanyEntry;
  regulator_entries : list (string * list string);
  sector_keywords : list (string * list string)
}.

(** Modelled from the spec: the four intents of the Query Engine. *)
Inductive Intent : Type :=
| company_query | sector_query | regulator_query | theme_query.

(** Modelled from the spec: the [analysis] summary of [search]. *)
Record QueryAnalysis : Type := mkAnalysis {
  intent : Intent;
  detectedEntities : list DetectedEntity
}.

(** Modelled from the spec: intent classification of the Query Engine,
    which the sources only name.  The intent follows from which entity
    types were detected, tried in the order company, sector, regulator;
    the first type present wins and a query with none of them is a theme
    query. *)
Definition intent_priority : list ((EntityExtractionResult -> list DetectedEntity) * Intent) :=
  [ (companies, company_query); (sectors, sector_query); (regulators, regulator_query) ].

(** Modelled from the spec: "present" in the intent rule of the Query
    Engine, at least one entity of the type was detected. *)
Definition present (l : list DetectedEntity) : bool :=
  match l with
  | [] => false
  | _ :: _ => true
  end.

(** Modelled from the spec: intent classification of the Query Engine,
    absent from the sources; the first rule of [intent_priority] whose
    type is present wins, else theme_query. *)
Definition classify_intent (r : EntityExtractionResult) : Intent :=
  match List.find (fun rule => present (fst rule r)) intent_priority with
  | Some rule => snd rule
  | None => theme_query
  end.

(** Modelled from the spec: "the same canonical value" of the Entity
    Extractor's merge step, same type and same value. *)
Definition same_entity (a b : DetectedEntity) : bool :=
  EntityKind_eqb (kind a) (kind b) && String.eqb (value a) (value b).

(** Modelled from the spec: the merge step of the Entity Extractor.
    When both recognition paths give an entity of the same type and
    canonical value, the one of higher confidence is kept and the other
    dropped. *)
Fixpoint reconcile_one (e : DetectedEntity) (found : list DetectedEntity)
  : list DetectedEntity :=
  match found with
  | [] => [e]
  | f :: rest =>
      if same_entity f e
      then (if Qle_bool (confidence e) (confidence f) then f else e) :: rest
      else f :: reconcile_one e rest
  end.

(** Modelled from the spec: the merge step of the Entity Extractor over
    all entities of the statistical path. *)
Definition reconcile (catalog_found statistical : list DetectedEntity) : list DetectedEntity :=
  fold_left (fun acc e => reconcile_one e acc) statistical catalog_found.

(** Modelled from the spec: the entities of one type, for the typed lists
    of the Entity Extractor's result. *)
Definition of_kind (k : EntityKind) (l : list DetectedEntity) : list DetectedEntity :=
  List.filter (fun e => EntityKind_eqb (kind e) k) l.

(** Modelled from the spec: the [company_confidence] of sector inference,
    the confidence of the found company entity of that name (1.0, the
    catalog's confidence, when the list has none). *)
Definition confidence_of (name : string) (l : list DetectedEntity) : Q :=
  match List.find (fun e => String.eqb (value e) name) l with
  | Some e => confidence e
  | None => 1.0
  end.

Section Extractor.

(** The catalog, the test "this text mentions this term" of the
    deterministic matcher, and the statistical recognizer. *)
Variable catalog : EntityCatalog.
Variable mentions : string -> string -> bool.
Variable recognizer : string -> list DetectedEntity.

(** Modelled from the spec: the deterministic lookup of the Entity
    Extractor for a company, a match of its name, ticker or one of its
    aliases. *)
Definition company_mentioned (text : string) (c : CompanyEntry) : bool :=
  existsb (mentions text) (canonical_name c :: ticker c :: aliases c).

(** Modelled from the spec: the deterministic lookup of the Entity
    Extractor for a sector, a match of one of its keywords. *)
Definition keyword_mentioned (text : string) (entry : string * list string) : bool :=
  existsb (mentions text) (snd entry).

(** Modelled from the spec: the deterministic lookup of the Entity
    Extractor for a regulator, a match of its name. *)
Definition regulator_mentioned (text : string) (entry : string * list string) : bool :=
  mentions text (fst entry).

(** Modelled from the spec: the implicit sector entity of sector
    inference, the sector of the company's catalog entry at the company's
    confidence times 0.9. *)
Definition implicit_sector (found_companies : list DetectedEntity) (c : CompanyEntry)
  : DetectedEntity :=
  mkDetected sector (company_sector c)
             (confidence_of (canonical_name c) found_companies * 0.9).

(** Modelled from the spec: sector inference of the Entity Extractor,
    "if a company entity is found and no explicit sector is mentioned,
    add an implicit sector entity".  With no explicit sector every
    catalog company found adds its sector; with an explicit sector
    nothing is added. *)
Definition infer_sectors (matched : list CompanyEntry)
           (found_companies explicit : list DetectedEntity) : list DetectedEntity :=
  match explicit with
  | [] => map (implicit_sector found_companies) matched
  | _ :: _ => explicit
  end.

(** Modelled from the spec: [extract] of the Entity Extractor, absent
    from the sources.  The deterministic path matches company names,
    tickers and aliases, regulator names and sector keywords of the
    catalog at confidence 1.0; the statistical path brings its own
    scores; the two are merged, and sectors are inferred from the
    companies found. *)
Definition extract (text : string) : EntityExtractionResult :=
  let matched := List.filter (company_mentioned text) (company_entries catalog) in
  let catalog_found :=
    map (fun c => mkDetected company (canonical_name c) 1.0) matched
    ++ map (fun entry => mkDetected sector (fst entry) 1.0)
           (List.filter (keyword_mentioned text) (sector_keywords catalog))
    ++ map (fun entry => mkDetected regulator (fst entry) 1.0)
           (List.filter (regulator_mentioned text) (regulator_entries catalog)) in
  let merged := reconcile catalog_found (recognizer text) in
  let found_companies := of_kind company merged in
  mkExtraction found_companies
               (infer_sectors matched found_companies (of_kind sector merged))
               (of_kind regulator merged)
               (of_kind event merged).

(** Modelled from the spec: the [analysis] summary of [search], intent
    and detected entities, from entity detection on the query text with
    the same extractor as ingestion. *)
Definition analyze_query (queryText : string) : QueryAnalysis :=
  let r := extract queryText in
  mkAnalysis (classify_intent r)
             (companies r ++ sectors r ++ regulators r ++ events r).

End Extractor.

(** A matcher and a catalog for the examples: a text mentions a term when
    the term occurs in it. *)
Fixpoint occurs_in (term text : string) : bool :=
  String.prefix term text
  || match text with
     | EmptyString => false
     | String _ rest => occurs_in term rest
     end.

Definition toy_mentions (text term : string) : bool := occurs_in term text.

Definition toy_catalog : EntityCatalog :=
  mkCatalog
    [ mkCompanyEntry "HDFC Bank" "HDFCBANK" "Banking" ["HDFC"];
      mkCompanyEntry "ICICI Bank" "ICICIBANK" "Banking" ["ICICI"];
      mkCompanyEntry "Tata Consultancy Services" "TCS" "IT" ["TCS"; "Tata Consultancy"] ]
    [ ("RBI", ["Banking"]); ("SEBI", ["Banking"; "IT"]) ]
    [ ("Banking", ["Banking"; "bank"]); ("IT", ["software"; "IT services"]) ].

Definition toy_analyze : string -> QueryAnalysis :=
  analyze_query toy_catalog toy_mentions (fun _ => []).



End QueryAnalysis.

(* ===================================================================== *)
(** * Dashboard view helpers and feed loading *)
(* ===================================================================== *)

Module DashboardView.
Import Dashboard.

(** [String.prototype.includes]: [key] occurs somewhere in [text]. *)
Fixpoint includes (text key : string) : bool :=
  String.prefix key text
  || match text with
     | EmptyString => false
     | String _ rest => includes rest key
     end.

(** [key] occurs in [text]: some text, then [key], then some text. *)
Definition occurs (key text : string) : Prop :=
  exists pre post, text = String.append pre (String.append key post).

(** The [sectorColors] table, in the order [Object.entries] walks it. *)
Definition sectorColors : list (string * string) :=
  [ ("banking", "sector-banking"); ("finance", "sector-banking");
    ("it", "sector-it"); ("technology", "sector-it");
    ("pharma", "sector-pharma"); ("healthcare", "sector-pharma");
    ("auto", "sector-auto"); ("automobile", "sector-auto");
    ("energy", "sector-energy"); ("oil", "sector-energy");
    ("fmcg", "sector-fmcg"); ("consumer", "sector-fmcg");
    ("metals", "sector-metals"); ("mining", "sector-metals") ].

(** The [for] loop of [getSectorClass] over the entries. *)
Fixpoint first_included (normalized : string) (entries : list (string * string)) : string :=
  match entries with
  | [] => "sector-default"
  | (key, value) :: rest =>
      if includes normalized key then value else first_included normalized rest
  end.

Section Lowercase.

(** [String.prototype.toLowerCase] is given. *)
Variable toLowerCase : string -> string.

(** [getSectorClass]. *)
Definition getSectorClass (sector : string) : string :=
  let normalized := toLowerCase sector in
  first_included normalized sectorColors.

End Lowercase.

(** Lower-casing of ASCII text, for the examples. *)
Definition ascii_lower (c : ascii) : ascii :=
  let n := nat_of_ascii c in
  if ((65 <=? n) && (n <=? 90))%nat then ascii_of_nat (n + 32) else c.

Fixpoint ascii_toLowerCase (s : string) : string :=
  match s with
  | EmptyString => EmptyString
  | String c rest => String (ascii_lower c) (ascii_toLowerCase rest)
  end.

(** ** [timeAgo] of a news card *)

(** The four shapes of the text [timeAgo] returns: ['Just now'],
    [`${n}m ago`], [`${n}h ago`], [`${n}d ago`]. *)
Inductive TimeAgo : Type :=
| JustNow
| MinutesAgo (n : Z)
| HoursAgo (n : Z)
| DaysAgo (n : Z).

(** [timeAgo], with [Date.now()] and the article's time in milliseconds. *)
Definition timeAgo_parts (now date : Z) : TimeAgo :=
  let seconds := (now - date) / 1000 in
  if seconds <? 60 then JustNow
  else if seconds <? 3600 then MinutesAgo (seconds / 60)
  else if seconds <? 86400 then HoursAgo (seconds / 3600)
  else DaysAgo (seconds / 86400).

Definition decimal (n : Z) : string := NilZero.string_of_int (Z.to_int n).

Definition render_timeAgo (t : TimeAgo) : string :=
  match t with
  | JustNow => "Just now"
  | MinutesAgo n => String.append (decimal n) "m ago"
  | HoursAgo n => String.append (decimal n) "h ago"
  | DaysAgo n => String.append (decimal n) "d ago"
  end.

Definition timeAgo (now date : Z) : string := render_timeAgo (timeAgo_parts now date).

(** ** The impact ring of a news card *)

(** [Math.round] of a number given by its exact value: the nearest
    integer, halves upwards. *)
Definition Math_round (x : Q) : Z := Qfloor (x + 1 / 2).

(** [article.sentiment_score || 0.5]: a missing score and a score of zero
    both give 0.5. *)
Definition score_or_half (sentiment_score : option Q) : Q :=
  match sentiment_score with
  | Some q => if Qeq_bool q 0 then 0.5 else q
  | None => 0.5
  end.

Section Product.

(** [x * 100] as JavaScript computes it, in binary64: from the exact
    value of [x] to the exact value of the rounded product. *)
Variable times_100 : Q -> Q.

(** [impactScore] of [NewsCard]. *)
Definition impactScore (sentiment_score : option Q) : Z :=
  Math_round (times_100 (score_or_half sentiment_score)).

End Product.

(** The stroke colour of [ImpactScoreRing]. *)
Definition ring_color (score : Z) : string :=
  if 70 <=? score then "#f43f5e"
  else if 40 <=? score then "#fbbf24"
  else "#10b981".

(** ** The sentiment badge *)

(** What [config[sentiment]] finds: one of the three own entries, a member
    every object inherits from [Object.prototype], or nothing. *)
Inductive ConfigLookup : Type :=
| OwnEntry (label : string)
| InheritedMember
| NotFound.

Definition object_prototype_members : list string :=
  [ "constructor"; "hasOwnProperty"; "isPrototypeOf"; "propertyIsEnumerable";
    "toLocaleString"; "toString"; "valueOf"; "__proto__";
    "__defineGetter__"; "__defineSetter__"; "__lookupGetter__"; "__lookupSetter__" ].

Definition config_lookup (sentiment : string) : ConfigLookup :=
  if String.eqb sentiment "positive" then OwnEntry "Bullish"
  else if String.eqb sentiment "negative" then OwnEntry "Bearish"
  else if String.eqb sentiment "neutral" then OwnEntry "Neutral"
  else if existsb (String.eqb sentiment) object_prototype_members then InheritedMember
  else NotFound.

(** The [label] [SentimentBadge] shows: [config[sentiment] || config.neutral],
    destructured; an inherited member has no [label]. *)
Definition badge_label (sentiment : string) : option string :=
  match config_lookup sentiment with
  | OwnEntry label => Some label
  | InheritedMember => None
  | NotFound => Some "Neutral"
  end.

(** [article.sentiment_label || 'neutral'], as [NewsCard] passes it on. *)
Definition card_badge_label (sentiment_label : option string) : option string :=
  match sentiment_label with
  | Some l => if String.eqb l "" then badge_label "neutral" else badge_label l
  | None => badge_label "neutral"
  end.

(** ** Search history *)

(** The history update of [handleSearch]: when the response has results,
    [[...results, ...prev].slice(0, 100)]. *)
Definition add_to_history {A : Type} (results prev : list A) : list A :=
  match results with
  | [] => prev
  | _ :: _ => take 100 (results ++ prev)
  end.

(** What the history page renders: [searchHistory.slice(0, 30)]. *)
Definition history_page {A : Type} (searchHistory : list A) : list A :=
  take 30 searchHistory.

(** ** Loading upvote counts *)

(** [Math.floor(Math.random() * 50) + 5] for one draw of [Math.random()]. *)
Definition initial_count (random : Q) : Z := Qfloor (random * 50) + 5.

(** The [forEach] that fills [initialUpvotes]: one draw per result, a later
    result of the same id overwrites an earlier one. *)
Definition initialUpvotes (loaded : list (string * Q)) : gmap string Z :=
  fold_left (fun u r => <[ fst r := initial_count (snd r) ]> u) loaded ∅.

(** [setUpvotes(initialUpvotes)] at the end of [loadFeed] and
    [handleSearch]: the counts are replaced, the user's upvote set is not
    touched. *)
Definition load_upvotes (loaded : list (string * Q)) (st : AppState) : AppState :=
  mkAppState (bookmarks st) (initialUpvotes loaded) (userUpvotes st).

(** What the user's own vote adds to an article's count: one when the
    article is in [userUpvotes]. *)
Definition vote_of (st : AppState) (id : string) : Z :=
  if decide (id ∈ userUpvotes st) then 1 else 0.

(** The cards of the bookmarks page:
    [results.filter(r => bookmarks.has(r.article.id))]. *)
Definition bookmarked_cards (result_ids : list string) (st : AppState) : list string :=
  List.filter (fun id => bool_decide (id ∈ bookmarks st)) result_ids.

End DashboardView.

(* ===================================================================== *)
(** * The processing graph *)
(* ===================================================================== *)

Module Graph.

(** The nodes of the news-processing graph, with LangGraph's [START] and
    [END]. *)
Inductive Node : Type :=
| START | ingest | dedup | ner | impact | sentiment | storage | END.

Definition Node_eqb (a b : Node) : bool :=
  match a, b with
  | START, START | ingest, ingest | dedup, dedup | ner, ner | impact, impact
  | sentiment, sentiment | storage, storage | END, END => true
  | _, _ => false
  end.

(** A [StateGraph]: plain edges, and conditional edges with their router
    and the table from router answers to nodes. *)
Record StateGraph (State : Type) : Type := mkGraph {
  edges : list (Node * Node);
  conditional_edges : list (Node * ((State -> string) * list (string * Node)))
}.

Arguments mkGraph {State} _ _.
Arguments edges {State} _.
Arguments conditional_edges {State} _.

(** [build_news_processing_graph]: [add_edge] and
    [add_conditional_edges] in the order they are called. *)
Definition build_news_processing_graph {State : Type}
           (should_skip_duplicate : State -> string) : StateGraph State :=
  mkGraph
    [ (START, ingest); (ingest, dedup);
      (ner, impact); (impact, sentiment); (sentiment, storage); (storage, END) ]
    [ (dedup, (should_skip_duplicate, [ ("skip", END); ("continue", ner) ])) ].

(** How a run ends: at [END], at a router answer the table does not have,
    or at a node without outgoing edge. *)
Inductive RunResult (State : Type) : Type :=
| Finished (executed : list Node) (final : State)
| UnknownRoute (executed : list Node) (answer : string) (final : State)
| NoEdge (executed : list Node) (final : State)
| OutOfSteps.

Arguments Finished {State} _ _.
Arguments UnknownRoute {State} _ _ _.
Arguments NoEdge {State} _ _.
Arguments OutOfSteps {State}.

Definition lookup_node {B : Type} (n : Node) (table : list (Node * B)) : option B :=
  match List.find (fun entry => Node_eqb (fst entry) n) table with
  | Some entry => Some (snd entry)
  | None => None
  end.

Definition lookup_answer (answer : string) (table : list (string * Node)) : option Node :=
  match List.find (fun entry => String.eqb (fst entry) answer) table with
  | Some entry => Some (snd entry)
  | None => None
  end.

Section Run.

Context {State : Type}.
Variable graph : StateGraph State.

(** What each node does to the state. *)
Variable node : Node -> State -> State.

(** The node after [current], given the state [current] left. *)
Definition successor (current : Node) (s : State) : Node + option string :=
  match lookup_node current (conditional_edges graph) with
  | Some (router, table) =>
      match lookup_answer (router s) table with
      | Some next => inl next
      | None => inr (Some (router s))
      end
  | None =>
      match lookup_node current (edges graph) with
      | Some next => inl next
      | None => inr None
      end
  end.

(** Running the graph from [current]: follow the edge out of it, execute
    the node it leads to, and go on until [END]. *)
Fixpoint run_from (steps : nat) (current : Node) (s : State) (executed : list Node)
  : RunResult State :=
  match steps with
  | O => OutOfSteps
  | S steps' =>
      match successor current s with
      | inl END => Finished executed s
      | inl next => run_from steps' next (node next s) (executed ++ [next])
      | inr (Some answer) => UnknownRoute executed answer s
      | inr None => NoEdge executed s
      end
  end.

Definition invoke (steps : nat) (s : State) : RunResult State :=
  run_from steps START s [].

End Run.

End Graph.

(* ===================================================================== *)
(** * Health, cluster review and lazy loading *)
(* ===================================================================== *)

Module Operations.

(** The four checks of the [/health] endpoint. *)
Record Checks : Type := mkChecks {
  chromadb : bool;
  postgres : bool;
  finbert : bool;
  llm : bool
}.

(** [health()]: ["healthy" if all(checks.values()) else "degraded"]. *)
Definition health (checks : Checks) : string :=
  if forallb (fun b => b) [chromadb checks; postgres checks; finbert checks; llm checks]
  then "healthy" else "degraded".

(** What [fetchHealth()] gives a dashboard: the response with its status,
    or a failed request. *)
Inductive HealthFetch : Type :=
| Responded (status : string)
| RequestFailed.

(** [checkHealth] of the dashboard:
    [setIsHealthy(status === 'healthy' || status === 'ok')], and [false]
    in the [catch]. *)
Definition isHealthy (r : HealthFetch) : bool :=
  match r with
  | Responded status => String.eqb status "healthy" || String.eqb status "ok"
  | RequestFailed => false
  end.

(** The header of the earlier dashboard: [health ? 'Live' : 'Offline'],
    with [health] the response data, or [null] in the [catch]. *)
Definition live_badge (r : HealthFetch) : string :=
  match r with
  | Responded _ => "Live"
  | RequestFailed => "Offline"
  end.

(** ** Sentiment variance inside a duplicate cluster *)

Inductive PyError : Type :=
| ValueError
| TypeError.

(** [max] and [min] of a list of floats after its first element. *)
Definition py_max (first : Q) (rest : list Q) : Q := fold_left Qmax rest first.
Definition py_min (first : Q) (rest : list Q) : Q := fold_left Qmin rest first.

(** The scores when every article has one; [sentiment_score] is
    [Optional]. *)
Fixpoint all_present (scores : list (option Q)) : option (list Q) :=
  match scores with
  | [] => Some []
  | None :: _ => None
  | Some q :: rest =>
      match all_present rest with
      | Some qs => Some (q :: qs)
      | None => None
      end
  end.

(** The variance rule: [cluster.needs_review] after
    [if max(cluster_sentiments) - min(cluster_sentiments) > 0.5:
         cluster.needs_review = True].
    [max] of an empty list raises [ValueError]; a missing score cannot be
    compared or subtracted and raises [TypeError]. *)
Definition review_cluster (cluster_sentiments : list (option Q)) (needs_review : bool)
  : PyError + bool :=
  match cluster_sentiments with
  | [] => inl ValueError
  | _ :: _ =>
      match all_present cluster_sentiments with
      | None => inl TypeError
      | Some [] => inl ValueError
      | Some (q :: qs) =>
          if Qle_bool (py_max q qs - py_min q qs) 0.5
          then inr needs_review
          else inr true
      end
  end.

(** ** Lazy loading of the sentiment model *)

Section LazyLoading.

(** The loaded pipeline object and the call that builds it. *)
Variable PipelineObject : Type.
Variable build_pipeline : PipelineObject.

(** [FinBERTSentimentAgent], with the number of times the model has been
    built so far. *)
Record Agent : Type := mkAgent {
  pipeline : option PipelineObject;
  _is_loaded : bool;
  builds : nat
}.

(** [__init__]. *)
Definition new_agent : Agent := mkAgent None false 0.

(** [_load_model]. *)
Definition _load_model (self : Agent) : Agent :=
  if _is_loaded self then self
  else mkAgent (Some build_pipeline) true (S (builds self)).

End LazyLoading.

Arguments pipeline {PipelineObject} _.
Arguments _is_loaded {PipelineObject} _.
Arguments builds {PipelineObject} _.
Arguments new_agent {PipelineObject}.
Arguments _load_model {PipelineObject} _ _.

End Operations.

(* ===================================================================== *)
(** * Embedding cache and batch ingestion *)
(* ===================================================================== *)

Module Ingestion.
Import Errors Dedup.

Notation "'do' x '<-' m ';' k" := (bind m (fun x => k))
  (at level 10, x name, m at level 100, k at level 200).

Section EmbeddingCache.

(** The embedding type, [hashlib.md5(text.encode()).hexdigest()] and
    [self.model.encode]. *)
Variable Embedding : Type.
Variable md5 : string -> string.
Variable encode : string -> outcome Embedding.

(** An [EmbeddingCache]: the [cache] dict, and the texts the model has
    been called on so far. *)
Record CacheState : Type := mkCacheState {
  cache : gmap string Embedding;
  encoded : list string
}.

(** [get_or_compute]. *)
Definition get_or_compute (text : string) : M CacheState Embedding :=
  fun self =>
    let hash_key := md5 text in
    match cache self !! hash_key with
    | Some embedding => (Returned embedding, self)
    | None =>
        match encode text with
        | Returned embedding =>
            (Returned embedding,
             mkCacheState (<[ hash_key := embedding ]> (cache self))
                          (encoded self ++ [text]))
        | Raised e => (Raised e, mkCacheState (cache self) (encoded self ++ [text]))
        end
    end.

(** A run of calls; a raised call does not stop the caller from making
    the next one. *)
Definition get_all (texts : list string) (self : CacheState) : CacheState :=
  fold_left (fun st text => snd (get_or_compute text st)) texts self.

End EmbeddingCache.

Arguments cache {Embedding} _.
Arguments encoded {Embedding} _.
Arguments mkCacheState {Embedding} _ _.
Arguments get_or_compute {Embedding} md5 encode text _.
Arguments get_all {Embedding} md5 encode texts self.

Section Batches.

Variable Embedding : Type.
Variable generate_embedding : string -> outcome Embedding.

Definition BATCH_SIZE : nat := 50.

(** One [collection.add(ids=..., embeddings=..., documents=...)]. *)
Record AddCall : Type := mkAddCall {
  ids : list string;
  embeddings : list Embedding;
  documents : list string
}.

(** [range(0, stop, step)]. *)
Definition range_from_zero (stop step : nat) : list nat :=
  map (fun k => k * step)%nat (seq 0 ((stop + step - 1) / step)%nat).

(** [asyncio.gather] of the embedding tasks: all results in task order,
    or an exception some task raised.  With several failing tasks the one
    that surfaces depends on scheduling; the model takes the first in
    task order. *)
Fixpoint gather (tasks : list (outcome Embedding)) : outcome (list Embedding) :=
  match tasks with
  | [] => Returned []
  | Raised e :: _ => Raised e
  | Returned x :: rest =>
      match gather rest with
      | Returned xs => Returned (x :: xs)
      | Raised e => Raised e
      end
  end.

(** [collection.add]: recorded in call order. *)
Definition collection_add (c : AddCall) : M (list AddCall) unit :=
  fun calls => (Returned tt, calls ++ [c]).

(** The body of the [for] loop for the start indices still to do. *)
Fixpoint ingest_from (starts : list nat) (articles : list NewsArticle)
  : M (list AddCall) unit :=
  match starts with
  | [] => ret tt
  | i :: rest =>
      let batch := take BATCH_SIZE (drop i articles) in
      do embeddings <- call (gather (map (fun a => generate_embedding (content a)) batch));
      do _ <- collection_add (mkAddCall (map article_id batch) embeddings
                                        (map content batch));
      ingest_from rest articles
  end.

(** [ingest_batch]. *)
Definition ingest_batch (articles : list NewsArticle) : M (list AddCall) unit :=
  ingest_from (range_from_zero (length articles) BATCH_SIZE) articles.

End Batches.

Arguments ids {Embedding} _.
Arguments embeddings {Embedding} _.
Arguments documents {Embedding} _.
Arguments mkAddCall {Embedding} _ _ _.
Arguments gather {Embedding} _.
Arguments ingest_from {Embedding} generate_embedding starts articles _.
Arguments ingest_batch {Embedding} generate_embedding articles _.

End Ingestion.

(* ===================================================================== *)
(** * Sample data *)
(* ===================================================================== *)

Module Fixtures.
Import Errors Dedup.

(** Seven stored articles, the sixth of them the only close one. *)
Definition crowded_store : list (StoredDoc Q) :=
  [ mkDoc "a" 0.90%Q "a"; mkDoc "b" 0.80%Q "b"; mkDoc "c" 0.70%Q "c";
    mkDoc "d" 0.60%Q "d"; mkDoc "e" 0.50%Q "e"; mkDoc "f" 0.12%Q "f";
    mkDoc "g" 0.95%Q "g" ].

End Fixtures.


(* ===================================================================== *)
(** * Whitespace padding *)
(* ===================================================================== *)

Module Whitespace.
Import Sentiment.

(** A text that [str.strip()] removes entirely: every character is
    whitespace (the empty text included). *)
Definition only_whitespace (s : str) : bool := forallb isspace s.

End Whitespace.
(* ===================================================================== *)
(** * Binary64 numbers *)
(* ===================================================================== *)

Module Binary64.

(** A Python [float] and a JavaScript [Number] are IEEE 754 binary64
    numbers, here the primitive floats, with their own rounding; a decimal
    literal stands for the nearest binary64 number, as in the sources. *)

(** [float(n)] of an integer, as in [n * 0.02]: exact up to [2^53],
    which the day counts of a [timedelta] never reach. *)
Definition float_of_int (n : Z) : float :=
  if n <? 0 then (- of_uint63 (Uint63.of_Z (- n)))%float
  else of_uint63 (Uint63.of_Z n).

(** [max(0, x)]: [x] when [x > 0], else the integer [0], which the
    addition it is used in reads as [0.0]. *)
Definition max_0 (x : float) : float :=
  if (0 <? x)%float then x else 0%float.

(** The exact value of a finite float. *)
Definition Q_of_float (x : float) : Q :=
  match Prim2SF x with
  | S754_finite s m e => (if s then -1 else 1) * inject_Z (Z.pos m) * 2 ^ e
  | _ => 0
  end%Q.

(** The float nearest to a rational: the quotient of numerator and
    denominator, which binary64 division rounds once. *)
Definition float_of_Q (x : Q) : float :=
  (float_of_int (Qnum x) / float_of_int (Z.pos (Qden x)))%float.

(** [x * 100] in binary64, on exact values. *)
Definition times_100 (x : Q) : Q := Q_of_float (float_of_Q x * 100)%float.

End Binary64.

(* ===================================================================== *)
(** * Result ranking in binary64 *)
(* ===================================================================== *)

Module QueryRanking.
Import Binary64.

(** A retrieved result as [rank_results] reads and writes it, with the
    similarity and the score as the floats they are.  Times are in
    seconds; [(now - published_date).days] is the floor of the difference
    in days. *)
Record Result : Type := mkResult {
  result_id : string;
  vector_similarity : float;
  published_date : Z;
  is_original : bool;
  final_score : float
}.

Definition set_final_score (r : Result) (s : float) : Result :=
  mkResult (result_id r) (vector_similarity r) (published_date r) (is_original r) s.

Section Ranking.

(** The query, the clock and the two match predicates are given. *)
Variable QueryT : Type.
Variable now : Z.
Variable has_direct_entity_match : QueryT -> Result -> bool.
Variable has_sector_match : QueryT -> Result -> bool.

Definition days_old (r : Result) : Z := (now - published_date r) / 86400.

(** The body of the [for] loop: the score written to [final_score], every
    [+=] in the order of the source. *)
Definition score_of (query : QueryT) (result : Result) : float :=
  (let score := 0.0 in
   let score := score + vector_similarity result * 0.4 in
   let score :=
     if has_direct_entity_match query result then score + 0.3
     else if has_sector_match query result then score + 0.15
     else score in
   let score := score + max_0 (0.2 - float_of_int (days_old result) * 0.02) in
   let score := if is_original result then score + 0.1 else score in
   score)%float.

Definition by_final_score_desc (a b : Result) : bool :=
  (final_score b <=? final_score a)%float.

(** [rank_results]: score every result, then
    [sorted(results, key=lambda x: x.final_score, reverse=True)]. *)
Definition rank_results (query : QueryT) (results : list Result) : list Result :=
  StableSort.sort by_final_score_desc
    (map (fun r => set_final_score r (score_of query r)) results).

End Ranking.

Arguments days_old now r : assert.
Arguments score_of {QueryT} now has_direct_entity_match has_sector_match query result.
Arguments rank_results {QueryT} now has_direct_entity_match has_sector_match query results.

(** Two results that are ten days old or more, the query matching both
    directly: the first an original of similarity 0.5, the second a
    duplicate of similarity 0.75. *)
Definition toy_now : Z := 100 * 86400.

Definition toy_original : Result :=
  mkResult "A" 0.5%float (toy_now - 30 * 86400) true 0%float.

Definition toy_duplicate : Result :=
  mkResult "B" 0.75%float (toy_now - 20 * 86400) false 0%float.

Definition toy_rank : list Result -> list Result :=
  rank_results toy_now (fun (_ : unit) _ => true) (fun _ _ => false) tt.

End QueryRanking.

(* ===================================================================== *)
(** * Properties of the dashboard handlers *)
(* ===================================================================== *)

Module DashboardProofs.
Import Dashboard.

Lemma count_or_zero_insert_eq (u : gmap string Z) (id : string) (n : Z) :
  count_or_zero (<[ id := n ]> u) id = n.
Proof. unfold count_or_zero. by rewrite lookup_insert_eq. Qed.

Lemma count_or_zero_insert_ne (u : gmap string Z) (id j : string) (n : Z) :
  id ≠ j -> count_or_zero (<[ id := n ]> u) j = count_or_zero u j.
Proof. intros Hne. unfold count_or_zero. by rewrite lookup_insert_ne. Qed.

Lemma toggle_set_twice (s : gset string) (id : string) :
  (let s1 := if decide (id ∈ s) then s ∖ {[ id ]} else s ∪ {[ id ]} in
   if decide (id ∈ s1) then s1 ∖ {[ id ]} else s1 ∪ {[ id ]}) = s.
Proof.
  cbv zeta. destruct (decide (id ∈ s)) as [Hin | Hnin].
  - rewrite decide_False by set_solver.
    apply set_eq. intros x. destruct (decide (x = id)); set_solver.
  - rewrite decide_True by set_solver.
    apply set_eq. intros x. set_solver.
Qed.

Example toggleUpvote_fresh_id :
  let st := mkAppState ∅ ∅ ∅ in
  let st2 := toggleUpvote "a1" (toggleUpvote "a1" st) in
  userUpvotes st2 = ∅ /\ displayed_upvotes st2 "a1" = 0
  /\ upvotes st2 !! "a1" = Some 0 /\ upvotes st !! "a1" = None.
Proof. vm_compute. repeat split; reflexivity. Qed.

Lemma toggleUpvote_member (id : string) (st : AppState) :
  id ∈ userUpvotes st ->
  toggleUpvote id st =
    mkAppState (bookmarks st)
               (<[ id := count_or_zero (upvotes st) id - 1 ]> (upvotes st))
               (userUpvotes st ∖ {[ id ]}).
Proof. intros Hin. unfold toggleUpvote. by rewrite decide_True. Qed.

Lemma toggleUpvote_fresh (id : string) (st : AppState) :
  id ∉ userUpvotes st ->
  toggleUpvote id st =
    mkAppState (bookmarks st)
               (<[ id := count_or_zero (upvotes st) id + 1 ]> (upvotes st))
               (userUpvotes st ∪ {[ id ]}).
Proof. intros Hnin. unfold toggleUpvote. by rewrite decide_False. Qed.

Ltac count_roundtrip j :=
  unfold displayed_upvotes; cbn [upvotes];
  rewrite count_or_zero_insert_eq;
  match goal with
  | |- context [ <[ ?i := _ ]> _ ] =>
      destruct (decide (i = j)) as [-> | Hne];
      [ rewrite count_or_zero_insert_eq; lia
      | rewrite !count_or_zero_insert_ne by done; reflexivity ]
  end.

Lemma toggleUpvote_twice (id : string) (st : AppState) :
  let st2 := toggleUpvote id (toggleUpvote id st) in
  userUpvotes st2 = userUpvotes st
  /\ (forall j, displayed_upvotes st2 j = displayed_upvotes st j)
  /\ bookmarks st2 = bookmarks st.
Proof.
  cbv zeta. destruct (decide (id ∈ userUpvotes st)) as [Hin | Hnin].
  - rewrite (toggleUpvote_member id st Hin).
    rewrite toggleUpvote_fresh by (cbn [userUpvotes]; set_solver).
    cbn [userUpvotes upvotes bookmarks].
    split; [| split; [| reflexivity]].
    + apply set_eq. intros x. destruct (decide (x = id)); set_solver.
    + intros j. count_roundtrip j.
  - rewrite (toggleUpvote_fresh id st Hnin).
    rewrite toggleUpvote_member by (cbn [userUpvotes]; set_solver).
    cbn [userUpvotes upvotes bookmarks].
    split; [| split; [| reflexivity]].
    + apply set_eq. intros x. set_solver.
    + intros j. count_roundtrip j.
Qed.

(** C10. Toggling the upvote of one article id twice in succession
    restores the user's upvote membership set and the displayed upvote
    count of every article (the toggled one included, also when it had
    no count entry before, where the count reads [0] through the
    [(u[id] || 0)] fallback); toggling a bookmark twice restores the
    bookmark set.  Neither handler touches the other's state. *)
Theorem toggle_twice_involution (st : AppState) (id : string) :
  let up2 := toggleUpvote id (toggleUpvote id st) in
  let bm2 := toggleBookmark id (toggleBookmark id st) in
  userUpvotes up2 = userUpvotes st
  /\ (forall j, displayed_upvotes up2 j = displayed_upvotes st j)
  /\ bookmarks up2 = bookmarks st
  /\ (upvotes st !! id = None -> displayed_upvotes up2 id = 0)
  /\ bookmarks bm2 = bookmarks st
  /\ upvotes bm2 = upvotes st
  /\ userUpvotes bm2 = userUpvotes st.
Proof.
  cbv zeta.
  destruct (toggleUpvote_twice id st) as (Hset & Hcnt & Hbm).
  repeat split; try assumption.
  - intros Hnone. rewrite Hcnt. unfold displayed_upvotes, count_or_zero.
    by rewrite Hnone.
  - unfold toggleBookmark; cbn [bookmarks]. apply toggle_set_twice.
Qed.

Lemma toggle_twice_involution_witness :
  upvotes (mkAppState ∅ ∅ ∅) !! "a1" = None
  /\ displayed_upvotes (toggleUpvote "a1" (toggleUpvote "a1" (mkAppState ∅ ∅ ∅))) "a1" = 0.
Proof.
  split; [reflexivity |].
  destruct (toggle_twice_involution (mkAppState ∅ ∅ ∅) "a1") as (_ & _ & _ & Hfresh & _).
  apply Hfresh. reflexivity.
Defined.

End DashboardProofs.

(* ===================================================================== *)
(** * Properties of the stable sort *)
(* ===================================================================== *)

Module StableSortProofs.
Import StableSort.
Section Sorting.

Context {A : Type}.
Variable leb : A -> A -> bool.

Abbreviation insert := (StableSort.insert leb).
Abbreviation sort := (StableSort.sort leb).
Abbreviation same_class := (StableSort.same_class leb).

Lemma insert_perm (x : A) (l : list A) : Permutation (x :: l) (insert x l).
Proof.
  induction l as [| y l IH]; simpl.
  - reflexivity.
  - destruct (leb x y).
    + reflexivity.
    + rewrite perm_swap. apply perm_skip. exact IH.
Qed.

Lemma sort_perm (l : list A) : Permutation l (sort l).
Proof.
  induction l as [| x l IH]; simpl.
  - constructor.
  - rewrite <- insert_perm. apply perm_skip. exact IH.
Qed.

Lemma sort_In (l : list A) (x : A) : In x (sort l) <-> In x l.
Proof.
  split; intros H.
  - eapply Permutation_in; [symmetry; apply sort_perm | exact H].
  - eapply Permutation_in; [apply sort_perm | exact H].
Qed.

Lemma sort_length (l : list A) : length (sort l) = length l.
Proof. symmetry. apply Permutation_length, sort_perm. Qed.

Hypothesis leb_total : forall x y, leb x y = true \/ leb y x = true.
Hypothesis leb_trans : forall x y z, leb x y = true -> leb y z = true -> leb x z = true.

Lemma insert_sorted (x : A) (l : list A) :
  StronglySorted (fun a b => leb a b = true) l ->
  StronglySorted (fun a b => leb a b = true) (insert x l).
Proof.
  induction l as [| y l IH]; simpl; intros Hs.
  - constructor; constructor.
  - inversion Hs as [| ? ? Hs' Hall]; subst.
    destruct (leb x y) eqn:Hxy.
    + constructor; [exact Hs |].
      constructor; [exact Hxy |].
      rewrite List.Forall_forall in *. intros a Ha.
      eapply leb_trans; [exact Hxy | apply Hall, Ha].
    + constructor; [apply IH; exact Hs' |].
      destruct (leb_total x y) as [Hc | Hyx]; [congruence |].
      rewrite List.Forall_forall in *. intros a Ha.
      apply (Permutation_in _ (Permutation_sym (insert_perm x l))) in Ha.
      destruct Ha as [<- | Ha]; [exact Hyx | apply Hall, Ha].
Qed.

Lemma sort_sorted (l : list A) :
  StronglySorted (fun a b => leb a b = true) (sort l).
Proof.
  induction l as [| x l IH]; simpl.
  - constructor.
  - apply insert_sorted, IH.
Qed.

Lemma filter_class_insert (z x : A) (l : list A) :
  StronglySorted (fun a b => leb a b = true) l ->
  List.filter (same_class z) (insert x l) = List.filter (same_class z) (x :: l).
Proof.
  induction l as [| y l IH]; intros Hs.
  - reflexivity.
  - inversion Hs as [| ? ? Hs' Hall]; subst.
    cbn [insert]. destruct (leb x y) eqn:Hxy; [reflexivity |].
    cbn [List.filter]. rewrite (IH Hs'). cbn [List.filter].
    destruct (same_class z y) eqn:Hzy; [| reflexivity].
    destruct (same_class z x) eqn:Hzx; [| reflexivity].
    exfalso. unfold same_class in *.
    apply andb_true_iff in Hzy as [Hzy1 Hzy2].
    apply andb_true_iff in Hzx as [Hzx1 Hzx2].
    rewrite (leb_trans x z y Hzx2 Hzy1) in Hxy. discriminate.
Qed.

Lemma sort_stable (z : A) (l : list A) :
  List.filter (same_class z) (sort l) = List.filter (same_class z) l.
Proof.
  induction l as [| x l IH]; [reflexivity |].
  cbn [sort]. rewrite filter_class_insert by apply sort_sorted.
  cbn [List.filter]. rewrite IH. reflexivity.
Qed.

(** In a sorted list an element that is strictly before another in the
    order is also before it in the list. *)
Lemma sorted_strict_before (l : list A) (x y : A) :
  StronglySorted (fun a b => leb a b = true) l ->
  In x l -> In y l -> leb y x = false ->
  exists l1 l2 l3, l = l1 ++ x :: l2 ++ y :: l3.
Proof.
  induction l as [| a l IH]; intros Hs Hx Hy Hyx; [destruct Hx |].
  inversion Hs as [| ? ? Hs' Hall]; subst.
  rewrite List.Forall_forall in Hall.
  destruct Hx as [Hax | Hx].
  - subst a. destruct Hy as [Hxy | Hy].
    + subst y. destruct (leb_total x x) as [H | H]; congruence.
    + apply in_split in Hy as (l2 & l3 & ->).
      exists [], l2, l3. reflexivity.
  - destruct Hy as [Hay | Hy].
    + subst a. specialize (Hall x Hx). congruence.
    + destruct (IH Hs' Hx Hy Hyx) as (l1 & l2 & l3 & ->).
      exists (a :: l1), l2, l3. reflexivity.
Qed.

End Sorting.
End StableSortProofs.

(* ===================================================================== *)
(** * Properties of the deduplication check *)
(* ===================================================================== *)

Module DedupProofs.
Import Errors Dedup.

(** ** What the loop decides *)

Section Facts.
Context {Embedding : Type}.
Implicit Types (similar : list (StoredDoc Embedding * Q)) (d : StoredDoc Embedding).

Lemma scan_neighbours_flag similar new_id :
  fst (fst (scan_neighbours similar new_id)) = true <-> Exists close_enough similar.
Proof.
  induction similar as [| [d dist] rest IH]; cbn [scan_neighbours].
  - split; [discriminate | intros H; inversion H].
  - destruct (Qle_bool 0.85 (1 - dist)) eqn:Hle.
    + split; [| reflexivity]. intros _. apply Exists_cons_hd.
      apply Qle_bool_iff, Hle.
    + rewrite IH. split; intros H.
      * apply Exists_cons_tl, H.
      * inversion H as [? ? Hhd | ? ? Htl]; subst; [| exact Htl].
        apply Qle_bool_iff in Hhd. cbn [snd] in Hhd. congruence.
Qed.

Lemma scan_neighbours_unique similar new_id :
  fst (fst (scan_neighbours similar new_id)) = false ->
  scan_neighbours similar new_id = (false, 0.0%Q, new_id).
Proof.
  induction similar as [| [d dist] rest IH]; cbn [scan_neighbours].
  - reflexivity.
  - destruct (Qle_bool 0.85 (1 - dist)); [discriminate | exact IH].
Qed.

(** A duplicate verdict carries the similarity and the cluster id of
    the first neighbour at or above the threshold. *)
Lemma scan_neighbours_duplicate similar new_id :
  fst (fst (scan_neighbours similar new_id)) = true ->
  exists before d dist after,
    similar = before ++ (d, dist) :: after
    /\ Forall (fun p => ~ close_enough p) before
    /\ close_enough (d, dist)
    /\ scan_neighbours similar new_id = (true, (1 - dist)%Q, doc_cluster_id d).
Proof.
  induction similar as [| [d dist] rest IH]; cbn [scan_neighbours].
  - discriminate.
  - destruct (Qle_bool 0.85 (1 - dist)) eqn:Hle.
    + intros _. exists [], d, dist, rest. repeat split.
      * constructor.
      * apply Qle_bool_iff, Hle.
    + intros H. destruct (IH H) as (before & d' & dist' & after & -> & Hb & Hc & Hr).
      exists ((d, dist) :: before), d', dist', after. repeat split; try assumption.
      constructor; [| exact Hb].
      unfold close_enough; cbn [snd]. intros Hc'.
      apply Qle_bool_iff in Hc'. congruence.
Qed.

Lemma best_similarity_bound similar (t : Q) :
  Exists (fun p => (t <= 1 - snd p)%Q) similar
  <-> exists b, best_similarity similar = Some b /\ (t <= b)%Q.
Proof.
  induction similar as [| [d dist] rest IH]; cbn [best_similarity].
  - split; [intros H; inversion H | intros (b & Hb & _); discriminate].
  - destruct (best_similarity rest) as [b |] eqn:Hbest.
    + split.
      * intros H. eexists; split; [reflexivity |].
        inversion H as [? ? Hhd | ? ? Htl]; subst.
        -- cbn [snd] in Hhd. eapply Qle_trans; [exact Hhd | apply Q.le_max_l].
        -- apply IH in Htl as (b' & Hb' & Hle). injection Hb' as <-.
           eapply Qle_trans; [exact Hle | apply Q.le_max_r].
      * intros (b' & Hb' & Hle). injection Hb' as <-.
        destruct (Q.max_spec (1 - dist) b) as [[_ Hm] | [_ Hm]]; rewrite Hm in Hle.
        -- apply Exists_cons_tl, IH. eauto.
        -- apply Exists_cons_hd. exact Hle.
    + split.
      * intros H. eexists; split; [reflexivity |].
        inversion H as [? ? Hhd | ? ? Htl]; subst; [exact Hhd |].
        apply IH in Htl as (b' & Hb' & _). discriminate.
      * intros (b' & Hb' & Hle). injection Hb' as <-.
        apply Exists_cons_hd. exact Hle.
Qed.

End Facts.

(** ** The whole check *)

Section CheckFacts.
Context {Embedding : Type}.
Variable encode : string -> outcome Embedding.
Variable distance : Embedding -> Embedding -> Q.

Lemma check_duplicate_returns (article : NewsArticle) (coll : Collection Embedding)
      (embedding : Embedding) :
  encode (content article) = Returned embedding ->
  check_duplicate encode distance article coll
  = (Returned (scan_neighbours (collection_query distance embedding 5 coll)
                               (article_id article)), coll).
Proof.
  intros Henc. unfold check_duplicate, bind, call, read, ret.
  rewrite Henc. reflexivity.
Qed.

(** The check only reads the collection. *)
Lemma check_duplicate_read_only (article : NewsArticle) (coll : Collection Embedding) :
  snd (check_duplicate encode distance article coll) = coll.
Proof.
  unfold check_duplicate, bind, call, read, ret.
  destruct (encode (content article)); reflexivity.
Qed.

(** An empty vector store gives a unique verdict with the article's
    own id as cluster id. *)
Lemma check_duplicate_empty_store (article : NewsArticle) (embedding : Embedding) :
  encode (content article) = Returned embedding ->
  check_duplicate encode distance article []
  = (Returned (false, 0.0%Q, article_id article), []).
Proof. intros Henc. rewrite (check_duplicate_returns _ _ _ Henc). reflexivity. Qed.

(** The verdict is "duplicate" exactly when the best similarity among
    the neighbours returned by the store reaches [0.85]; equality
    counts. *)
Lemma check_duplicate_verdict (article : NewsArticle) (coll : Collection Embedding)
      (embedding : Embedding) :
  encode (content article) = Returned embedding ->
  forall r, fst (check_duplicate encode distance article coll) = Returned r ->
  (fst (fst r) = true
     <-> exists b, best_similarity (collection_query distance embedding 5 coll) = Some b
                   /\ (0.85 <= b)%Q)
  /\ (fst (fst r) = false -> r = (false, 0.0%Q, article_id article)).
Proof.
  intros Henc r Hr. rewrite (check_duplicate_returns _ _ _ Henc) in Hr.
  cbn [fst] in Hr. injection Hr as <-. split.
  - rewrite scan_neighbours_flag. apply best_similarity_bound.
  - apply scan_neighbours_unique.
Qed.

(** C8 (amended). When the embedding provider fails while an article is
    being deduplicated, [check_duplicate] passes the provider's own
    exception on, unchanged: it returns no verdict, neither duplicate nor
    unique, the collection is what it was, and what the caller sees is a
    [DependencyUnavailableError] only when that is what the provider
    raised. *)
Theorem check_duplicate_fails_closed (article : NewsArticle)
        (coll : Collection Embedding) (e : PipelineError) :
  encode (content article) = Raised e ->
  check_duplicate encode distance article coll = (Raised e, coll)
  /\ (forall verdict, fst (check_duplicate encode distance article coll)
                      <> Returned verdict)
  /\ (fst (check_duplicate encode distance article coll)
      = Raised DependencyUnavailableError
      <-> e = DependencyUnavailableError).
Proof.
  intros Henc.
  assert (Hrun : check_duplicate encode distance article coll = (Raised e, coll)).
  { unfold check_duplicate, bind, call. rewrite Henc. reflexivity. }
  rewrite Hrun. cbn [fst]. split; [reflexivity |]. split.
  - intros verdict. discriminate.
  - split; [intros [= ->]; reflexivity | intros ->; reflexivity].
Qed.

End CheckFacts.

Lemma check_duplicate_fails_closed_witness :
  check_duplicate unreachable_encode toy_distance (mkArticle "n2" "HDFC Bank profit")
                  toy_store
  = (Raised (PythonError "ConnectionError"), toy_store).
Proof.
  apply (check_duplicate_fails_closed unreachable_encode toy_distance
           (mkArticle "n2" "HDFC Bank profit") toy_store
           (PythonError "ConnectionError")).
  reflexivity.
Defined.

(** C8, as the spec words it, fails: with the provider unreachable the
    caller of [check_duplicate] gets the provider's [ConnectionError],
    not a [DependencyUnavailableError]. *)
Lemma check_duplicate_raises_provider_class :
  unreachable_encode "HDFC Bank profit" = Raised (PythonError "ConnectionError")
  /\ fst (check_duplicate unreachable_encode toy_distance
            (mkArticle "n2" "HDFC Bank profit") toy_store)
     = Raised (PythonError "ConnectionError")
  /\ fst (check_duplicate unreachable_encode toy_distance
            (mkArticle "n2" "HDFC Bank profit") toy_store)
     <> Raised DependencyUnavailableError.
Proof. split; [reflexivity |]. split; [reflexivity | discriminate]. Qed.

(** The comparison is inclusive: a neighbour at distance [0.15], similarity
    exactly [0.85], makes the article a duplicate of that neighbour's
    cluster. *)
Example check_duplicate_at_the_threshold :
  fst (check_duplicate toy_encode toy_distance (mkArticle "n2" "0123456789abcde") toy_store)
  = Returned (true, (1 - toy_distance 0.15 0.30)%Q, "n1")
  /\ (1 - toy_distance 0.15 0.30 == 0.85)%Q.
Proof. split; reflexivity. Qed.

(** C1. With one stored article at distance [0.20] (cosine similarity
    [0.80], above the configured threshold [0.70]) the check answers
    "unique" with similarity [0.0] and the new article's own id: the
    hard-coded [0.85] decides, not [dedup_threshold]. *)
Theorem check_duplicate_ignores_configured_threshold :
  let article := mkArticle "n2" "0123456789" in
  collection_query toy_distance 0.10%Q 5 toy_store
    = [ (mkDoc "n1" 0.30%Q "n1", toy_distance 0.10 0.30) ]
  /\ (toy_distance 0.10 0.30 == 0.20)%Q
  /\ (exists b, best_similarity (collection_query toy_distance 0.10%Q 5 toy_store) = Some b
                /\ (b == 0.80)%Q /\ (dedup_threshold <= b)%Q)
  /\ fst (check_duplicate toy_encode toy_distance article toy_store)
     = Returned (false, 0.0%Q, "n2").
Proof.
  cbv zeta. split; [reflexivity |]. split; [reflexivity |]. split.
  - eexists. split; [reflexivity |]. split; [reflexivity |].
    apply Qle_bool_iff. reflexivity.
  - reflexivity.
Qed.

End DedupProofs.

(* ===================================================================== *)
(** * Properties of the impact scorer *)
(* ===================================================================== *)

Module ImpactProofs.
Import Impact.

Lemma ImpactType_eqb_eq (a b : ImpactType) : ImpactType_eqb a b = true <-> a = b.
Proof. destruct a, b; cbn; split; congruence. Qed.

(** ** The deduplication invariant *)

Lemma same_pair_iff (a b : StockImpact) :
  same_pair a b = true <-> pair_of a = pair_of b.
Proof.
  unfold same_pair, pair_of. rewrite andb_true_iff, String.eqb_eq, ImpactType_eqb_eq.
  split; [intros [-> ->]; reflexivity | intros [= -> ->]; split; reflexivity].
Qed.

Lemma same_pair_false_iff (a b : StockImpact) :
  same_pair a b = false <-> pair_of a <> pair_of b.
Proof.
  rewrite <- same_pair_iff. destruct (same_pair a b); split; congruence.
Qed.

Lemma same_pair_ext (a b : StockImpact) :
  pair_of a = pair_of b -> forall x, same_pair a x = same_pair b x.
Proof.
  intros Hab x. destruct (same_pair b x) eqn:Hb.
  - apply same_pair_iff. apply same_pair_iff in Hb. congruence.
  - apply same_pair_false_iff. apply same_pair_false_iff in Hb. congruence.
Qed.

Lemma pair_of_merge (y x : StockImpact) : pair_of (merge y x) = pair_of y.
Proof. reflexivity. Qed.

(** What one row does to the accumulator: it is merged into the entry
    of its pair, or appended when the pair is new. *)
Lemma absorb_cases (x : StockImpact) (acc : list StockImpact) :
  (exists before y after,
      acc = before ++ y :: after
      /\ same_pair y x = true
      /\ Forall (fun z => same_pair z x = false) before
      /\ absorb x acc = before ++ merge y x :: after)
  \/ (Forall (fun z => same_pair z x = false) acc /\ absorb x acc = acc ++ [x]).
Proof.
  induction acc as [| y acc IH]; cbn [absorb].
  - right. split; [constructor | reflexivity].
  - destruct (same_pair y x) eqn:Hyx.
    + left. exists [], y, acc. repeat split; [exact Hyx | constructor].
    + destruct IH as [(before & y' & after & -> & Hy' & Hb & Habs) | [Hall Habs]].
      * left. exists (y :: before), y', after. rewrite Habs.
        repeat split; [exact Hy' | constructor; assumption].
      * right. rewrite Habs. split; [constructor; assumption | reflexivity].
Qed.

Lemma filter_snoc (f : StockImpact -> bool) (l : list StockImpact) (x : StockImpact) :
  List.filter f (l ++ [x]) = List.filter f l ++ (if f x then [x] else []).
Proof. rewrite List.filter_app. reflexivity. Qed.

Lemma fold_left_merge_pair (ps : list StockImpact) (p0 : StockImpact) :
  pair_of (fold_left merge ps p0) = pair_of p0.
Proof.
  revert p0. induction ps as [| p ps IH]; intros p0; cbn [fold_left].
  - reflexivity.
  - rewrite IH. apply pair_of_merge.
Qed.

Lemma summarises_absorb (acc processed : list StockImpact) (x : StockImpact) :
  summarises acc processed -> summarises (absorb x acc) (processed ++ [x]).
Proof.
  intros [Hnd Hmerge Hcover].
  assert (Hkeep : forall o, In o acc -> same_pair o x = false ->
            exists p0 ps, List.filter (same_pair o) (processed ++ [x]) = p0 :: ps
                          /\ o = fold_left merge ps p0).
  { intros o Ho Hox. destruct (Hmerge o Ho) as (p0 & ps & Hf & Hfold).
    exists p0, ps. rewrite filter_snoc, Hox, app_nil_r. split; assumption. }
  destruct (absorb_cases x acc) as [(before & y & after & -> & Hyx & Hb & ->) | [Hall ->]].
  - (* merged into [y] *)
    assert (Hpairs : map pair_of (before ++ merge y x :: after)
                     = map pair_of (before ++ y :: after)).
    { rewrite !map_app. reflexivity. }
    split.
    + rewrite Hpairs. exact Hnd.
    + intros o Ho. apply in_app_or in Ho as [Ho | [<- | Ho]].
      * apply Hkeep; [apply in_or_app; left; exact Ho |].
        rewrite List.Forall_forall in Hb. apply Hb, Ho.
      * destruct (Hmerge y) as (p0 & ps & Hf & Hfold);
          [apply in_or_app; right; left; reflexivity |].
        exists p0, (ps ++ [x]). split.
        -- rewrite filter_snoc.
           rewrite (List.filter_ext _ _ (same_pair_ext _ _ (pair_of_merge y x))).
           rewrite Hf, (same_pair_ext _ _ (pair_of_merge y x)), Hyx. reflexivity.
        -- rewrite fold_left_app. cbn [fold_left]. rewrite <- Hfold. reflexivity.
      * apply Hkeep; [apply in_or_app; right; right; exact Ho |].
        (* [o] sits after [y], whose pair is [x]'s: by [NoDup] its pair differs *)
        apply same_pair_false_iff. intros Hox.
        rewrite map_app in Hnd. cbn [map] in Hnd.
        apply List.NoDup_remove_2 in Hnd. apply Hnd, in_or_app. right.
        apply same_pair_iff in Hyx. rewrite Hyx, <- Hox.
        apply in_map, Ho.
    + intros p Hp. rewrite Hpairs.
      apply in_app_or in Hp as [Hp | [<- | []]]; [apply Hcover, Hp |].
      apply same_pair_iff in Hyx. rewrite <- Hyx.
      apply in_map, in_or_app. right; left; reflexivity.
  - (* a new pair *)
    rewrite List.Forall_forall in Hall.
    split.
    + rewrite map_app. cbn [map].
      apply List.NoDup_app; [exact Hnd | constructor; [intros [] | constructor] |].
      intros k Hk [<- | []].
      apply in_map_iff in Hk as (z & Hz & Hzin).
      apply same_pair_iff in Hz. rewrite (Hall z Hzin) in Hz. discriminate.
    + intros o Ho. apply in_app_or in Ho as [Ho | [<- | []]].
      * apply Hkeep; [exact Ho | apply Hall, Ho].
      * exists x, []. split; [| reflexivity].
        assert (Hsame : same_pair x x = true) by (apply same_pair_iff; reflexivity).
        rewrite filter_snoc, Hsame.
        assert (Hnone : List.filter (same_pair x) processed = []).
        { destruct (List.filter (same_pair x) processed) as [| p ps] eqn:Hf;
            [reflexivity | exfalso].
          assert (Hp : In p (List.filter (same_pair x) processed))
            by (rewrite Hf; left; reflexivity).
          apply List.filter_In in Hp as [Hp Hxp].
          apply Hcover, in_map_iff in Hp as (z & Hz & Hzin).
          apply same_pair_iff in Hxp.
          assert (Hzx : same_pair z x = true)
            by (apply same_pair_iff; congruence).
          rewrite (Hall z Hzin) in Hzx. discriminate. }
        rewrite Hnone. reflexivity.
    + intros p Hp. rewrite map_app. apply in_or_app.
      apply in_app_or in Hp as [Hp | [<- | []]].
      * left. apply Hcover, Hp.
      * right. left. reflexivity.
Qed.

Lemma summarises_fold (l acc processed : list StockImpact) :
  summarises acc processed ->
  summarises (fold_left (fun acc x => absorb x acc) l acc) (processed ++ l).
Proof.
  revert acc processed. induction l as [| x l IH]; intros acc processed H; cbn [fold_left].
  - rewrite app_nil_r. exact H.
  - replace (processed ++ x :: l) with ((processed ++ [x]) ++ l)
      by (rewrite <- app_assoc; reflexivity).
    apply IH, summarises_absorb, H.
Qed.

Lemma deduplicate_summarises (l : list StockImpact) : summarises (deduplicate l) l.
Proof.
  apply (summarises_fold l [] []).
  split; [constructor | intros o [] | intros p []].
Qed.

(** ** Fields of a merged entry *)

Lemma fold_left_merge_confidence (ps : list StockImpact) (p0 : StockImpact) :
  impact_confidence (fold_left merge ps p0)
  = fold_left Qmax (map impact_confidence ps) (impact_confidence p0).
Proof.
  revert p0. induction ps as [| p ps IH]; intros p0; cbn [fold_left map].
  - reflexivity.
  - rewrite IH. reflexivity.
Qed.

Lemma fold_left_merge_reasoning (ps : list StockImpact) (p0 : StockImpact) :
  reasoning (fold_left merge ps p0)
  = fold_left String.append (map reasoning ps) (reasoning p0).
Proof.
  revert p0. induction ps as [| p ps IH]; intros p0; cbn [fold_left map].
  - reflexivity.
  - rewrite IH. reflexivity.
Qed.

Lemma Qmax_choice (a b : Q) : Qmax a b = a \/ Qmax a b = b.
Proof.
  unfold Qmax, GenericMinMax.gmax. destruct (a ?= b)%Q; auto.
Qed.

Lemma fold_left_Qmax_upper (qs : list Q) (q0 : Q) :
  forall q, In q (q0 :: qs) -> (q <= fold_left Qmax qs q0)%Q.
Proof.
  revert q0. induction qs as [| q1 qs IH]; intros q0 q Hq; cbn [fold_left].
  - destruct Hq as [<- | []]. apply Qle_refl.
  - destruct Hq as [<- | Hq].
    + eapply Qle_trans; [apply Q.le_max_l |]. apply IH. left; reflexivity.
    + destruct Hq as [<- | Hq].
      * eapply Qle_trans; [apply Q.le_max_r |]. apply IH. left; reflexivity.
      * apply IH. right; exact Hq.
Qed.

Lemma fold_left_Qmax_attained (qs : list Q) (q0 : Q) :
  In (fold_left Qmax qs q0) (q0 :: qs).
Proof.
  revert q0. induction qs as [| q1 qs IH]; intros q0; cbn [fold_left].
  - left; reflexivity.
  - destruct (IH (Qmax q0 q1)) as [H | H].
    + rewrite <- H. destruct (Qmax_choice q0 q1) as [-> | ->].
      * left; reflexivity.
      * right; left; reflexivity.
    + right; right; exact H.
Qed.

(** ** The ranking order *)

Lemma rank_leb_spec (a b : StockImpact) : rank_leb a b = true <-> ranks_before a b.
Proof.
  unfold rank_leb, ranks_before.
  rewrite orb_true_iff, negb_true_iff, andb_true_iff, Qeq_bool_iff, Nat.leb_le.
  split; (intros [H | H]; [left | right; exact H]).
  - apply Qnot_le_lt. intros Hle. apply Qle_bool_iff in Hle. congruence.
  - destruct (Qle_bool (impact_confidence a) (impact_confidence b)) eqn:Hle;
      [| reflexivity].
    apply Qle_bool_iff in Hle. exfalso. apply (Qlt_not_le _ _ H), Hle.
Qed.

Lemma rank_leb_total (a b : StockImpact) : rank_leb a b = true \/ rank_leb b a = true.
Proof.
  rewrite !rank_leb_spec. unfold ranks_before.
  destruct (Q_dec (impact_confidence a) (impact_confidence b)) as [[Hlt | Hgt] | Heq].
  - right; left; exact Hlt.
  - left; left; exact Hgt.
  - destruct (Nat.le_ge_cases (priority (impact_type a)) (priority (impact_type b))).
    + left; right; split; assumption.
    + right; right; split; [symmetry; exact Heq | assumption].
Qed.

Lemma rank_leb_trans (a b c : StockImpact) :
  rank_leb a b = true -> rank_leb b c = true -> rank_leb a c = true.
Proof.
  rewrite !rank_leb_spec. unfold ranks_before.
  intros [Hab | [Hab Pab]] [Hbc | [Hbc Pbc]].
  - left. lra.
  - left. lra.
  - left. lra.
  - right. split; [lra | lia].
Qed.

Lemma rank_perm (l : list StockImpact) : Permutation l (rank l).
Proof. apply StableSortProofs.sort_perm. Qed.

Lemma rank_sorted (l : list StockImpact) : StronglySorted ranks_before (rank l).
Proof.
  eapply StronglySorted_ind
    with (P := fun l => StronglySorted ranks_before l)
         (R := fun a b => rank_leb a b = true).
  - constructor.
  - intros a l' _ IH Hall. constructor; [exact IH |].
    rewrite List.Forall_forall in *. intros x Hx. apply rank_leb_spec, Hall, Hx.
  - apply StableSortProofs.sort_sorted; [apply rank_leb_total | apply rank_leb_trans].
Qed.

(** ** Entries of the finished list *)

Lemma deduplicate_and_rank_In (impacts : list ImpactRow) (o : StockImpact) :
  In o (deduplicate_and_rank impacts)
  <-> In o (deduplicate (map to_stock_impact impacts)).
Proof. unfold deduplicate_and_rank, rank. apply StableSortProofs.sort_In. Qed.

Lemma deduplicate_and_rank_nodup (impacts : list ImpactRow) :
  List.NoDup (map pair_of (deduplicate_and_rank impacts)).
Proof.
  eapply Permutation_NoDup.
  - apply Permutation_map, rank_perm.
  - apply (sum_nodup _ _ (deduplicate_summarises _)).
Qed.

Lemma deduplicate_and_rank_entry (impacts : list ImpactRow) (o : StockImpact) :
  In o (deduplicate_and_rank impacts) ->
  exists p0 ps,
    List.filter (same_pair o) (map to_stock_impact impacts) = p0 :: ps
    /\ (forall p, In p (p0 :: ps) -> (impact_confidence p <= impact_confidence o)%Q)
    /\ (exists p, In p (p0 :: ps) /\ impact_confidence o = impact_confidence p)
    /\ reasoning o = fold_left String.append (map reasoning ps) (reasoning p0).
Proof.
  intros Ho. apply deduplicate_and_rank_In in Ho.
  destruct (sum_merge _ _ (deduplicate_summarises _) o Ho) as (p0 & ps & Hf & ->).
  exists p0, ps. split; [exact Hf |]. rewrite fold_left_merge_confidence.
  split; [| split].
  - intros p Hp. apply fold_left_Qmax_upper.
    change (In (impact_confidence p) (map impact_confidence (p0 :: ps))).
    apply in_map, Hp.
  - pose proof (fold_left_Qmax_attained (map impact_confidence ps) (impact_confidence p0))
      as Hin.
    change (In (fold_left Qmax (map impact_confidence ps) (impact_confidence p0))
               (map impact_confidence (p0 :: ps))) in Hin.
    apply in_map_iff in Hin as (p & Hp & Hpin). exists p. split; [exact Hpin | congruence].
  - apply fold_left_merge_reasoning.
Qed.

Lemma deduplicate_and_rank_cover (impacts : list ImpactRow) (p : StockImpact) :
  In p (map to_stock_impact impacts) ->
  exists o, In o (deduplicate_and_rank impacts) /\ pair_of o = pair_of p.
Proof.
  intros Hp.
  apply (sum_cover _ _ (deduplicate_summarises _)), in_map_iff in Hp as (o & Ho & Hin).
  exists o. split; [apply deduplicate_and_rank_In, Hin | exact Ho].
Qed.

(** ** The invariants of the scorer's output *)

Section CatalogFacts.

Variable lookup_company : string -> Company.
Variable get_sector_peers : string -> list Company.
Variable get_regulated_companies : string -> list Company.

Abbreviation collect := (collect_impacts lookup_company get_sector_peers get_regulated_companies).
Abbreviation scorer := (map_impact lookup_company get_sector_peers get_regulated_companies).

(** C3. In the list [map_impact] returns for any entities, no two entries
    share both stock symbol and impact type.  Each entry stands for the
    rows of the mapping loop that reached its (symbol, type) pair: its
    confidence is the maximum of their confidences and its reasoning is
    their reasoning strings concatenated in loop order.  Every pair the
    loop produced keeps an entry, so one symbol under two impact types
    keeps two entries. *)
Theorem impact_pairs_unique (entities : list Entity) :
  let rows := map to_stock_impact (collect entities) in
  let out := scorer entities in
  List.NoDup (map pair_of out)
  /\ (forall o, In o out ->
        exists p0 ps,
          List.filter (same_pair o) rows = p0 :: ps
          /\ (forall p, In p (p0 :: ps) -> (impact_confidence p <= impact_confidence o)%Q)
          /\ (exists p, In p (p0 :: ps) /\ impact_confidence o = impact_confidence p)
          /\ reasoning o = fold_left String.append (map reasoning ps) (reasoning p0))
  /\ (forall p, In p rows -> exists o, In o out /\ pair_of o = pair_of p).
Proof.
  cbv zeta. unfold map_impact. split; [apply deduplicate_and_rank_nodup |]. split.
  - apply deduplicate_and_rank_entry.
  - apply deduplicate_and_rank_cover.
Qed.

(** C5. The list [map_impact] returns for any entities is sorted: an
    entry is followed only by entries of lower confidence, or of equal
    confidence and the same or a later impact type in the priority
    direct > sector > regulatory > supply_chain.  So a direct entry
    stands before every sector, regulatory or supply-chain entry whose
    confidence is equal or lower, wherever the loop produced them. *)
Theorem impacts_ranked (entities : list Entity) :
  let out := scorer entities in
  StronglySorted ranks_before out
  /\ (forall d e, In d out -> In e out ->
        impact_type d = DIRECT -> impact_type e <> DIRECT ->
        (impact_confidence e <= impact_confidence d)%Q ->
        exists l1 l2 l3, out = l1 ++ d :: l2 ++ e :: l3).
Proof.
  cbv zeta. unfold map_impact, deduplicate_and_rank. split; [apply rank_sorted |].
  intros d e Hd He Hdir Hnot Hle.
  apply (StableSortProofs.sorted_strict_before rank_leb rank_leb_total);
    [apply StableSortProofs.sort_sorted; [apply rank_leb_total | apply rank_leb_trans]
    | exact Hd | exact He |].
  destruct (rank_leb e d) eqn:Hed; [exfalso | reflexivity].
  apply rank_leb_spec in Hed as [Hlt | [_ Hprio]].
  - apply (Qlt_not_le _ _ Hlt), Hle.
  - rewrite Hdir in Hprio. destruct (impact_type e); cbn in Hprio;
      [congruence | lia | lia | lia].
Qed.

(** Every row is written with the confidence of its type in
    [IMPACT_TYPES]. *)
Lemma collect_impacts_confidence (entities : list Entity) (r : ImpactRow) :
  In r (collect entities) -> confidence r = IMPACT_TYPES_confidence (type r).
Proof.
  unfold collect_impacts. rewrite in_flat_map. intros (e & _ & Hr).
  unfold rows_of_entity in Hr. destruct (entity_type e); cbn in Hr; try contradiction.
  - destruct Hr as [<- | Hr]; [reflexivity |].
    apply in_map_iff in Hr as (peer & <- & _). reflexivity.
  - apply in_map_iff in Hr as (c & <- & _). reflexivity.
Qed.

(** C4 (amended). Every sector row the mapping loop of [map_impact]
    writes has confidence 0.7, the SECTOR confidence of [IMPACT_TYPES],
    whatever the number of companies of the sector that were directly
    mentioned, and so lies in the band from 0.6 to 0.8.  The one other
    sector impact the sources build, the fallback for a company that is
    not in the catalog, has confidence 0.5, below the band. *)
Theorem sector_confidence_constant (entities : list Entity) :
  (forall r, In r (collect entities) -> type r = SECTOR ->
     confidence r = 0.7%Q /\ (0.6 <= confidence r)%Q /\ (confidence r <= 0.8)%Q)
  /\ (forall COMPANIES detect_sector_from_text company content i,
        missing_company_fallback COMPANIES detect_sector_from_text company content
        = Some i ->
        fallback_impact_type i = "sector"
        /\ fallback_confidence i = 0.5%Q
        /\ (fallback_confidence i < 0.6)%Q
        /\ ~ In company COMPANIES).
Proof.
  split.
  - intros r Hr Ht. rewrite (collect_impacts_confidence _ _ Hr), Ht. cbn.
    split; [reflexivity |]. split; apply Qle_bool_iff; reflexivity.
  - intros COMPANIES detect company content i. unfold missing_company_fallback.
    destruct (existsb (String.eqb company) COMPANIES) eqn:Hknown; [discriminate |].
    destruct (detect content) as [detected |]; [| discriminate].
    destruct (String.eqb detected ""); [discriminate |].
    intros [= <-]. cbn. split; [reflexivity |]. split; [reflexivity |].
    split; [reflexivity |].
    intros Hin. assert (Hex : existsb (String.eqb company) COMPANIES = true).
    { apply existsb_exists. exists company. split; [exact Hin | apply String.eqb_refl]. }
    congruence.
Qed.

End CatalogFacts.

Lemma impact_pairs_unique_witness :
  exists o, In o (toy_map_impact [mkEntity COMPANY "HDFC Bank"; mkEntity COMPANY "ICICI Bank"])
            /\ pair_of o = ("HDFCBANK", SECTOR)
            /\ reasoning o = "Sector-wide impactSector-wide impact"
            /\ List.NoDup (map pair_of (toy_map_impact [mkEntity COMPANY "HDFC Bank";
                                                        mkEntity COMPANY "ICICI Bank"])).
Proof.
  destruct (impact_pairs_unique toy_lookup_company toy_sector_peers toy_regulated
              [mkEntity COMPANY "HDFC Bank"; mkEntity COMPANY "ICICI Bank"])
    as (Hnd & Hentry & Hcover).
  destruct (Hcover (to_stock_impact (mkRow "HDFCBANK" SECTOR 0.7)))
    as (o & Ho & Hpair); [vm_compute; right; left; reflexivity |].
  exists o. split; [exact Ho |]. split; [exact Hpair |]. split; [| exact Hnd].
  destruct (Hentry o Ho) as (p0 & ps & Hf & _ & _ & Hr).
  rewrite (List.filter_ext _ _
             (same_pair_ext o (to_stock_impact (mkRow "HDFCBANK" SECTOR 0.7)) Hpair)) in Hf.
  vm_compute in Hf. injection Hf as <- <-. exact Hr.
Defined.

Lemma impacts_ranked_witness :
  exists l1 l2 l3,
    toy_map_impact [mkEntity REGULATOR "RBI"; mkEntity COMPANY "HDFC Bank"]
    = l1 ++ mkStockImpact "HDFCBANK" DIRECT 1.0 "Company directly mentioned"
         :: l2 ++ mkStockImpact "ICICIBANK" REGULATORY 0.6 "Regulator policy impact"
         :: l3.
Proof.
  apply (proj2 (impacts_ranked toy_lookup_company toy_sector_peers toy_regulated
                  [mkEntity REGULATOR "RBI"; mkEntity COMPANY "HDFC Bank"])).
  - vm_compute. left; reflexivity.
  - vm_compute. do 4 right. left; reflexivity.
  - reflexivity.
  - discriminate.
  - apply Qle_bool_iff. reflexivity.
Defined.

Lemma sector_confidence_constant_witness :
  let r := mkRow "ICICIBANK" SECTOR 0.7 in
  In r (collect_impacts toy_lookup_company toy_sector_peers toy_regulated
          [mkEntity COMPANY "HDFC Bank"])
  /\ confidence r = 0.7%Q.
Proof.
  cbv zeta.
  assert (Hin : In (mkRow "ICICIBANK" SECTOR 0.7)
                   (collect_impacts toy_lookup_company toy_sector_peers toy_regulated
                      [mkEntity COMPANY "HDFC Bank"])).
  { vm_compute. right; right; left; reflexivity. }
  split; [exact Hin |].
  apply (proj1 (sector_confidence_constant toy_lookup_company toy_sector_peers
                  toy_regulated [mkEntity COMPANY "HDFC Bank"]) _ Hin).
  reflexivity.
Defined.

(** C4, as the spec words it, fails: with one bank directly mentioned
    the spec's formula gives [0.6 + 0.2 * (1/3)], the scorer gives
    [0.7]. *)
Lemma sector_confidence_not_scaled :
  let entities := [mkEntity COMPANY "HDFC Bank"] in
  directMentionsInSector toy_lookup_company entities "Banking" = 1%nat
  /\ exists o, In o (toy_map_impact entities)
               /\ impact_type o = SECTOR
               /\ stock_symbol o = "ICICIBANK"
               /\ ~ (impact_confidence o
                     == spec_sector_confidence
                          (directMentionsInSector toy_lookup_company entities "Banking"))%Q.
Proof.
  cbv zeta. split; [reflexivity |].
  exists (mkStockImpact "ICICIBANK" SECTOR 0.7 "Sector-wide impact").
  split; [vm_compute; right; right; left; reflexivity |].
  split; [reflexivity |]. split; [reflexivity |].
  vm_compute. discriminate.
Qed.

End ImpactProofs.

(* ===================================================================== *)
(** * Properties of the sentiment classifier *)
(* ===================================================================== *)

Module SentimentProofs.
Import Errors Sentiment.

(** ** Stripping never lengthens *)

Lemma lstrip_length (s : str) : (length (lstrip s) <= length s)%nat.
Proof.
  induction s as [| c s IH]; cbn [lstrip length].
  - lia.
  - destruct (isspace c); cbn [length]; lia.
Qed.

Lemma rstrip_length (s : str) : (length (rstrip s) <= length s)%nat.
Proof.
  induction s as [| c s IH]; cbn [rstrip length].
  - lia.
  - destruct (rstrip s) as [| c' t].
    + destruct (isspace c); cbn [length]; lia.
    + cbn [length] in *. lia.
Qed.

Lemma strip_length (s : str) : (length (strip s) <= length s)%nat.
Proof.
  unfold strip. etransitivity; [apply rstrip_length | apply lstrip_length].
Qed.

(** A no-break space (U+00A0) and an ideographic space (U+3000) are
    stripped like a blank. *)
Example strip_example :
  strip ([160; 32] ++ str_of "HDFC Bank" ++ [9; 12288])%N = str_of "HDFC Bank".
Proof. reflexivity. Qed.

(** ** The label [analyze_sentiment] returns *)

Lemma analyze_sentiment_passes_on (sentiment_analyzer : str -> outcome (list LabelScore))
      (text : str) (result : LabelScore) (others : list LabelScore) :
  sentiment_analyzer (take 512 text) = Returned (result :: others) ->
  analyze_sentiment sentiment_analyzer text = Returned result.
Proof.
  intros Hrun. unfold analyze_sentiment. rewrite Hrun. destruct result. reflexivity.
Qed.


End SentimentProofs.

(* ===================================================================== *)
(** * Properties of ranking and answer synthesis *)
(* ===================================================================== *)

Module QueryProofs.
Import Query.

Section RankingFacts.

Context {QueryT : Type}.
Variable now : Z.
Variable has_direct_entity_match : QueryT -> Result -> bool.
Variable has_sector_match : QueryT -> Result -> bool.

Abbreviation score := (score_of now has_direct_entity_match has_sector_match).
Abbreviation ranked := (rank_results now has_direct_entity_match has_sector_match).
Abbreviation entity_bonus := (Query.entity_bonus has_direct_entity_match has_sector_match).
Abbreviation recency_bonus := (Query.recency_bonus now).

Lemma score_of_closed_form (query : QueryT) (r : Result) :
  (score query r
   == 0.4 * vector_similarity r + entity_bonus query r + recency_bonus r
      + original_bonus r)%Q.
Proof.
  unfold score_of, Query.entity_bonus, Query.recency_bonus, original_bonus.
  destruct (has_direct_entity_match query r), (has_sector_match query r),
    (is_original r); ring.
Qed.

Lemma by_final_score_desc_total (a b : Result) :
  by_final_score_desc a b = true \/ by_final_score_desc b a = true.
Proof.
  unfold by_final_score_desc. rewrite !Qle_bool_iff.
  destruct (Qlt_le_dec (final_score a) (final_score b)) as [H | H].
  - right. apply Qlt_le_weak, H.
  - left. exact H.
Qed.

Lemma by_final_score_desc_trans (a b c : Result) :
  by_final_score_desc a b = true -> by_final_score_desc b c = true ->
  by_final_score_desc a c = true.
Proof.
  unfold by_final_score_desc. rewrite !Qle_bool_iff. intros Hab Hbc.
  eapply Qle_trans; eassumption.
Qed.

End RankingFacts.

(** C2, as the spec words it, fails on both counts.  A fresh duplicate
    with no match scores 0.2 in [rank_results]; the spec's formula weighs
    the recency bonus by 0.2 and gives 0.04 minus the penalty, for no
    penalty the same number (the article is a duplicate, so the spec's
    preference for representatives does not apply).  Two results of equal
    score come back in input order, the older one first, not the more
    recent one. *)
Lemma rank_results_not_as_worded :
  (exists r, toy_rank [toy_fresh] = [r]
             /\ (final_score r == 0.2)%Q
             /\ ~ exists penalty : Q,
                   (0 <= penalty)%Q
                   /\ (final_score r
                       == spec_final_score toy_now (fun (_ : unit) _ => false)
                            (fun _ _ => false) tt toy_fresh penalty)%Q)
  /\ (exists older newer,
         toy_rank [toy_older; toy_newer] = [older; newer]
         /\ (final_score older == final_score newer)%Q
         /\ published_date older < published_date newer).
Proof.
  split.
  - exists (set_final_score toy_fresh
              (score_of toy_now (fun (_ : unit) _ => false) (fun _ _ => false) tt toy_fresh)).
    split; [reflexivity |]. split; [reflexivity |].
    intros (penalty & Hpos & Heq). cbn [final_score set_final_score] in Heq.
    assert (Hscore : (score_of toy_now (fun (_ : unit) _ => false) (fun _ _ => false) tt
                        toy_fresh == 0.2)%Q) by reflexivity.
    assert (Hspec : (spec_final_score toy_now (fun (_ : unit) _ => false)
                       (fun _ _ => false) tt toy_fresh penalty == 0.04 - penalty)%Q).
    { unfold spec_final_score, spec_recencyBonus.
      change (days_old toy_now toy_fresh) with 0.
      cbn [vector_similarity toy_fresh].
      rewrite Q.max_r by (apply Qle_bool_iff; reflexivity).
      change (inject_Z 0) with 0%Q. ring. }
    rewrite Hscore, Hspec in Heq. lra.
  - eexists _, _. split; [reflexivity |]. split; [reflexivity |]. reflexivity.
Qed.

Section SynthesisFacts.

Variable llm_generate : string -> raises string.

Lemma synthesize_recovers (prompt : string) (rs : list Result) (e : Exception) :
  llm_generate prompt = Raise e ->
  e = RateLimitError \/ e = TimeoutError ->
  synthesize llm_generate prompt rs = Return (mkQueryResponse rs None).
Proof.
  intros Hgen He. unfold synthesize. rewrite Hgen.
  destruct He as [-> | ->]; reflexivity.
Qed.

Lemma synthesize_keeps_results (prompt : string) (rs : list Result) (resp : QueryResponse) :
  synthesize llm_generate prompt rs = Return resp -> results resp = rs.
Proof.
  unfold synthesize.
  destruct (llm_generate prompt) as [answer | [| | c]]; intros [= <-]; reflexivity.
Qed.

End SynthesisFacts.

(** C9. When the LLM answers with an HTTP 5xx, which its client raises
    as a server-error exception, the recovery block does not catch it:
    the query ends in that exception, not in a response that carries the
    results without a synthesized answer. *)
Theorem synthesize_server_error_escapes :
  let llm_down := fun _ : string => Raise (OtherException "InternalServerError") in
  synthesize llm_down "Based on these articles, answer: HDFC Bank news"
             [toy_older; toy_newer]
  = Raise (OtherException "InternalServerError")
  /\ synthesize (fun _ => Raise TimeoutError)
                "Based on these articles, answer: HDFC Bank news" [toy_older; toy_newer]
     = Return (mkQueryResponse [toy_older; toy_newer] None).
Proof. split; reflexivity. Qed.

End QueryProofs.

(* ===================================================================== *)
(** * Properties of query analysis *)
(* ===================================================================== *)

Module QueryAnalysisProofs.
Import QueryAnalysis.


(** ** Intent *)


(** ** The merge keeps what the catalog found, and invents nothing *)








(** ** Sector inference *)


(** ** The typed lists of an extraction *)

Section ExtractionFacts.

Variable catalog : EntityCatalog.
Variable mentions : string -> string -> bool.
Variable recognizer : string -> list DetectedEntity.

Abbreviation extracted := (extract catalog mentions recognizer).
Abbreviation analysed := (analyze_query catalog mentions recognizer).




End ExtractionFacts.




Example scenario_intents :
  intent (toy_analyze "Banking sector update") = sector_query
  /\ intent (toy_analyze "RBI") = regulator_query
  /\ toy_analyze "xyzabc123" = mkAnalysis theme_query [].
Proof. repeat split; reflexivity. Qed.

End QueryAnalysisProofs.

(* ===================================================================== *)
(** * Further properties of the deduplication check *)
(* ===================================================================== *)

Module DedupExtras.
Import Errors Dedup Fixtures.

Section NearestFirst.

Context {Embedding : Type}.
Variable encode : string -> outcome Embedding.
Variable distance : Embedding -> Embedding -> Q.

Implicit Types (coll : Collection Embedding) (embedding : Embedding).

Abbreviation measured embedding coll :=
  (map (fun d => (d, distance embedding (doc_embedding d))) coll).

Abbreviation nearest_first embedding coll :=
  (StableSort.sort (Dedup.nearer Embedding) (measured embedding coll)).

Abbreviation nearer := (Dedup.nearer Embedding).

Lemma nearer_total (a b : StoredDoc Embedding * Q) :
  nearer a b = true \/ nearer b a = true.
Proof.
  unfold Dedup.nearer. rewrite !Qle_bool_iff.
  destruct (Qlt_le_dec (snd a) (snd b)) as [H | H].
  - left. apply Qlt_le_weak, H.
  - right. exact H.
Qed.

Lemma nearer_trans (a b c : StoredDoc Embedding * Q) :
  nearer a b = true -> nearer b c = true -> nearer a c = true.
Proof.
  unfold Dedup.nearer. rewrite !Qle_bool_iff. intros Hab Hbc.
  eapply Qle_trans; eassumption.
Qed.

Lemma In_take {A : Type} (n : nat) (l : list A) (x : A) : In x (take n l) -> In x l.
Proof.
  revert l. induction n as [| n IH]; intros [| y l]; cbn; try tauto.
  intros [-> | H]; [left; reflexivity | right; apply IH, H].
Qed.

Lemma In_nearest_first embedding coll (p : StoredDoc Embedding * Q) :
  In p (nearest_first embedding coll)
  <-> exists d, In d coll /\ p = (d, distance embedding (doc_embedding d)).
Proof.
  rewrite StableSortProofs.sort_In, in_map_iff.
  split.
  - intros (d & Heq & Hin). exists d. split; [exact Hin | symmetry; exact Heq].
  - intros (d & Hin & Heq). exists d. split; [symmetry; exact Heq | exact Hin].
Qed.

(** The first entry of the query result is a nearest stored entry. *)
Lemma nearest_first_head embedding coll (h : StoredDoc Embedding * Q)
      (t : list (StoredDoc Embedding * Q)) :
  nearest_first embedding coll = h :: t ->
  forall d, In d coll -> (snd h <= distance embedding (doc_embedding d))%Q.
Proof.
  intros Hsorted d Hd.
  pose proof (StableSortProofs.sort_sorted nearer nearer_total nearer_trans
                (measured embedding coll)) as Hs.
  assert (Hin : In (d, distance embedding (doc_embedding d)) (nearest_first embedding coll))
    by (apply In_nearest_first; eauto).
  rewrite Hsorted in Hs, Hin. inversion Hs as [| ? ? _ Hall]; subst.
  destruct Hin as [Heq | Hin].
  - subst h. apply Qle_refl.
  - rewrite List.Forall_forall in Hall. specialize (Hall _ Hin).
    unfold Dedup.nearer in Hall. apply Qle_bool_iff in Hall. exact Hall.
Qed.

(** The loop over the five nearest entries finds a match exactly when the
    whole collection holds one. *)
Lemma verdict_iff_close_doc embedding coll (new_id : string) :
  fst (fst (scan_neighbours (collection_query distance embedding 5 coll) new_id)) = true
  <-> exists d, In d coll /\ (0.85 <= 1 - distance embedding (doc_embedding d))%Q.
Proof.
  rewrite DedupProofs.scan_neighbours_flag, List.Exists_exists. unfold collection_query.
  split.
  - intros ([d dist] & Hin & Hclose). apply In_take, In_nearest_first in Hin
      as (d' & Hd' & [= -> ->]).
    exists d'. split; [exact Hd' | exact Hclose].
  - intros (d & Hd & Hclose).
    destruct (nearest_first embedding coll) as [| h t] eqn:Hsorted.
    + exfalso.
      assert (Hin : In (d, distance embedding (doc_embedding d))
                       (nearest_first embedding coll))
        by (apply In_nearest_first; eauto).
      rewrite Hsorted in Hin. destruct Hin.
    + exists h. split; [left; reflexivity |].
      unfold close_enough. pose proof (nearest_first_head _ _ _ _ Hsorted d Hd). lra.
Qed.

(** X1. Asking the vector store for only the five nearest neighbours never
    hides a duplicate: [check_duplicate] answers "duplicate" exactly when
    some article anywhere in the collection has similarity 0.85 or more to
    the new one. *)
Theorem top5_cutoff_hides_no_duplicate (article : NewsArticle) coll embedding :
  encode (content article) = Returned embedding ->
  exists verdict,
    fst (check_duplicate encode distance article coll) = Returned verdict
    /\ (fst (fst verdict) = true
        <-> exists d, In d coll
                      /\ (0.85 <= 1 - distance embedding (doc_embedding d))%Q).
Proof.
  intros Henc. rewrite (DedupProofs.check_duplicate_returns _ _ _ _ _ Henc).
  eexists. split; [reflexivity |]. apply verdict_iff_close_doc.
Qed.

(** X2. A "duplicate" answer reports the similarity of the nearest stored
    article: the returned similarity is at least 0.85, at least the
    similarity of every stored article, and the similarity of one of
    them.  A "unique" answer reports similarity 0.0, and then every stored
    article is below 0.85. *)
Theorem verdict_reports_nearest (article : NewsArticle) coll embedding
        (is_dup : bool) (similarity : Q) (cluster : string) :
  encode (content article) = Returned embedding ->
  fst (check_duplicate encode distance article coll)
  = Returned (is_dup, similarity, cluster) ->
  if is_dup
  then (0.85 <= similarity)%Q
       /\ (forall d, In d coll ->
             (1 - distance embedding (doc_embedding d) <= similarity)%Q)
       /\ (exists d, In d coll
                     /\ similarity = (1 - distance embedding (doc_embedding d))%Q)
  else similarity = 0.0%Q
       /\ (forall d, In d coll ->
             (1 - distance embedding (doc_embedding d) < 0.85)%Q).
Proof.
  intros Henc. rewrite (DedupProofs.check_duplicate_returns _ _ _ _ _ Henc).
  cbn [fst]. intros [= Hscan]. destruct is_dup.
  - assert (Hflag : fst (fst (scan_neighbours (collection_query distance embedding 5 coll)
                                               (article_id article))) = true)
      by (rewrite Hscan; reflexivity).
    apply verdict_iff_close_doc in Hflag as (d0 & Hd0 & Hclose0).
    unfold collection_query in Hscan.
    destruct (nearest_first embedding coll) as [| [h hd] t] eqn:Hsorted.
    + exfalso.
      assert (Hin : In (d0, distance embedding (doc_embedding d0))
                       (nearest_first embedding coll))
        by (apply In_nearest_first; eauto).
      rewrite Hsorted in Hin. destruct Hin.
    + pose proof (nearest_first_head _ _ _ _ Hsorted) as Hmin. cbn [snd] in Hmin.
      assert (Hh : In (h, hd) (nearest_first embedding coll))
        by (rewrite Hsorted; left; reflexivity).
      apply In_nearest_first in Hh as (d & Hd & [= -> ->]).
      cbn [take scan_neighbours] in Hscan.
      assert (Hle : Qle_bool 0.85 (1 - distance embedding (doc_embedding d)) = true).
      { apply Qle_bool_iff. pose proof (Hmin d0 Hd0). lra. }
      rewrite Hle in Hscan. injection Hscan as <- <-.
      split; [apply Qle_bool_iff, Hle |]. split.
      * intros d' Hd'. pose proof (Hmin d' Hd'). lra.
      * exists d. split; [exact Hd | reflexivity].
  - assert (Hflag : fst (fst (scan_neighbours (collection_query distance embedding 5 coll)
                                               (article_id article))) = false)
      by (rewrite Hscan; reflexivity).
    rewrite (DedupProofs.scan_neighbours_unique _ _ Hflag) in Hscan.
    injection Hscan as <- <-. split; [reflexivity |].
    intros d Hd. apply Qnot_le_lt. intros Hclose.
    assert (Hdup : fst (fst (scan_neighbours (collection_query distance embedding 5 coll)
                                              (article_id article))) = true)
      by (apply verdict_iff_close_doc; eauto).
    congruence.
Qed.

(** X3. Storing more articles never turns a duplicate into a unique
    article: if the check answers "duplicate" against a collection, it
    answers "duplicate" against every collection that contains the same
    entries, in any order and with any others in between. *)
Theorem duplicate_survives_growth (article : NewsArticle) coll coll' embedding
        (verdict : bool * Q * string) :
  encode (content article) = Returned embedding ->
  (forall d, In d coll -> In d coll') ->
  fst (check_duplicate encode distance article coll) = Returned verdict ->
  fst (fst verdict) = true ->
  exists verdict',
    fst (check_duplicate encode distance article coll') = Returned verdict'
    /\ fst (fst verdict') = true.
Proof.
  intros Henc Hincl. rewrite !(DedupProofs.check_duplicate_returns _ _ _ _ _ Henc).
  cbn [fst]. intros [= <-] Hdup. eexists. split; [reflexivity |].
  apply verdict_iff_close_doc. apply verdict_iff_close_doc in Hdup as (d & Hd & Hclose).
  exists d. split; [apply Hincl, Hd | exact Hclose].
Qed.

End NearestFirst.

Lemma top5_cutoff_hides_no_duplicate_witness :
  exists verdict,
    fst (check_duplicate toy_encode toy_distance (mkArticle "n" "0123456789") crowded_store)
    = Returned verdict
    /\ (fst (fst verdict) = true
        <-> exists d, In d crowded_store
                      /\ (0.85 <= 1 - toy_distance (10 / 100) (doc_embedding d))%Q).
Proof.
  apply (top5_cutoff_hides_no_duplicate toy_encode toy_distance
           (mkArticle "n" "0123456789") crowded_store (10 / 100)%Q).
  reflexivity.
Defined.

Lemma verdict_reports_nearest_witness :
  (0.85 <= 1 - toy_distance (10 / 100) 0.12)%Q
  /\ exists d, In d crowded_store
               /\ (1 - toy_distance (10 / 100) 0.12
                   = 1 - toy_distance (10 / 100) (doc_embedding d))%Q.
Proof.
  pose proof (verdict_reports_nearest toy_encode toy_distance
                (mkArticle "n" "0123456789") crowded_store (10 / 100)%Q
                true (1 - toy_distance (10 / 100) 0.12)%Q "f" eq_refl eq_refl)
    as (Hge & _ & Hex).
  split; assumption.
Defined.

Lemma duplicate_survives_growth_witness :
  exists verdict',
    fst (check_duplicate toy_encode toy_distance (mkArticle "n" "0123456789")
           (mkDoc "z" 0.99%Q "z" :: crowded_store)) = Returned verdict'
    /\ fst (fst verdict') = true.
Proof.
  apply (duplicate_survives_growth toy_encode toy_distance (mkArticle "n" "0123456789")
           crowded_store (mkDoc "z" 0.99%Q "z" :: crowded_store) (10 / 100)%Q
           (true, (1 - toy_distance (10 / 100) 0.12)%Q, "f")).
  - reflexivity.
  - intros d Hd. right. exact Hd.
  - reflexivity.
  - reflexivity.
Defined.

End DedupExtras.

(* ===================================================================== *)
(** * Properties of the dashboard view helpers *)
(* ===================================================================== *)

Module DashboardViewProofs.
Import Dashboard DashboardView.

(** ** Substrings *)

Lemma prefix_spec (key text : string) :
  String.prefix key text = true <-> exists post, text = String.append key post.
Proof.
  revert text. induction key as [| a key IH]; intros text.
  - split; [intros _; exists text; reflexivity | intros _; destruct text; reflexivity].
  - destruct text as [| b text]; cbn [String.prefix].
    + split; [discriminate | intros (post & H); discriminate].
    + destruct (ascii_dec a b) as [-> | Hne].
      * rewrite IH. split; intros (post & H); exists post.
        -- cbn. rewrite H. reflexivity.
        -- cbn in H. injection H as H. exact H.
      * split; [discriminate | intros (post & H)].
        simpl in H. injection H as Hba _. congruence.
Qed.

Lemma includes_spec (text key : string) : includes text key = true <-> occurs key text.
Proof.
  induction text as [| c text IH]; cbn [includes].
  - rewrite orb_false_r, prefix_spec. split.
    + intros (post & H). exists EmptyString, post. exact H.
    + intros ([| c pre] & post & H); [exists post; exact H | discriminate].
  - rewrite orb_true_iff, prefix_spec, IH. split.
    + intros [(post & H) | (pre & post & H)].
      * exists EmptyString, post. exact H.
      * exists (String c pre), post. cbn. rewrite H. reflexivity.
    + intros ([| c' pre] & post & H).
      * left. exists post. exact H.
      * right. cbn in H. injection H as _ H. exists pre, post. exact H.
Qed.

Lemma first_included_cases (normalized : string) (entries : list (string * string)) :
  (exists before key value after,
      entries = before ++ (key, value) :: after
      /\ includes normalized key = true
      /\ Forall (fun entry => includes normalized (fst entry) = false) before
      /\ first_included normalized entries = value)
  \/ (Forall (fun entry => includes normalized (fst entry) = false) entries
      /\ first_included normalized entries = "sector-default").
Proof.
  induction entries as [| [key value] rest IH]; cbn [first_included].
  - right. split; [constructor | reflexivity].
  - destruct (includes normalized key) eqn:Hkey.
    + left. exists [], key, value, rest. repeat split; [exact Hkey | constructor].
    + destruct IH as [(before & k & v & after & -> & Hk & Hb & Hv) | [Hall Hv]].
      * left. exists ((key, value) :: before), k, v, after.
        repeat split; [exact Hk | constructor; assumption | exact Hv].
      * right. split; [constructor; assumption | exact Hv].
Qed.

(** X4. [getSectorClass] returns the class of the first entry of
    [sectorColors], in table order, whose key occurs in the lower-cased
    sector name, and ['sector-default'] exactly when no key occurs. *)
Theorem getSectorClass_first_match (toLowerCase : string -> string) (sector : string) :
  let normalized := toLowerCase sector in
  (exists before key value after,
      sectorColors = before ++ (key, value) :: after
      /\ occurs key normalized
      /\ (forall k v : string, In (k, v) before -> ~ occurs k normalized)
      /\ getSectorClass toLowerCase sector = value)
  \/ ((forall k v : string, In (k, v) sectorColors -> ~ occurs k normalized)
      /\ getSectorClass toLowerCase sector = "sector-default").
Proof.
  cbv zeta. unfold getSectorClass.
  assert (Hnot : forall l, Forall (fun entry => includes (toLowerCase sector) (fst entry)
                                                = false) l ->
                           forall k v : string, In (k, v) l -> ~ occurs k (toLowerCase sector)).
  { intros l Hall k v Hin Hocc. rewrite List.Forall_forall in Hall.
    specialize (Hall _ Hin). cbn [fst] in Hall.
    apply includes_spec in Hocc. congruence. }
  destruct (first_included_cases (toLowerCase sector) sectorColors)
    as [(before & k & v & after & Heq & Hk & Hb & Hv) | [Hall Hv]].
  - left. exists before, k, v, after. repeat split; try assumption.
    + apply includes_spec, Hk.
    + apply Hnot, Hb.
  - right. split; [apply Hnot, Hall | exact Hv].
Qed.

Lemma getSectorClass_first_match_witness :
  getSectorClass ascii_toLowerCase "Real Estate" = "sector-default"
  \/ exists before key value after,
      sectorColors = before ++ (key, value) :: after
      /\ occurs key (ascii_toLowerCase "Real Estate")
      /\ (forall k v : string, In (k, v) before -> ~ occurs k (ascii_toLowerCase "Real Estate"))
      /\ getSectorClass ascii_toLowerCase "Real Estate" = value.
Proof.
  destruct (getSectorClass_first_match ascii_toLowerCase "Real Estate")
    as [H | [_ H]]; [right; exact H | left; exact H].
Defined.

(** X5. The two-letter key ["it"] catches every sector whose lower-cased
    name contains the letters "it" and neither "banking" nor "finance":
    such a sector is styled as IT, whatever else its name holds. *)
Theorem it_key_catches_substrings (toLowerCase : string -> string) (sector : string) :
  occurs "it" (toLowerCase sector) ->
  ~ occurs "banking" (toLowerCase sector) ->
  ~ occurs "finance" (toLowerCase sector) ->
  getSectorClass toLowerCase sector = "sector-it".
Proof.
  intros Hit Hb Hf. unfold getSectorClass, sectorColors. cbn [first_included].
  destruct (includes (toLowerCase sector) "banking") eqn:H1;
    [exfalso; apply Hb, includes_spec, H1 |].
  destruct (includes (toLowerCase sector) "finance") eqn:H2;
    [exfalso; apply Hf, includes_spec, H2 |].
  apply includes_spec in Hit. rewrite Hit. reflexivity.
Qed.

Lemma not_occurs_by_computation (key text : string) :
  includes text key = false -> ~ occurs key text.
Proof. intros H Hocc. apply includes_spec in Hocc. congruence. Qed.

Lemma it_key_catches_substrings_witness :
  getSectorClass ascii_toLowerCase "Utilities" = "sector-it".
Proof.
  apply (it_key_catches_substrings ascii_toLowerCase "Utilities").
  - apply includes_spec. reflexivity.
  - apply not_occurs_by_computation. reflexivity.
  - apply not_occurs_by_computation. reflexivity.
Defined.

(** ** [timeAgo] *)

(** X6. [timeAgo] never shows a number out of its unit's range: minutes
    are between 1 and 59, hours between 1 and 23, days at least 1; an
    article less than a minute old, or dated in the future, shows
    "Just now". *)
Theorem timeAgo_ranges (now date : Z) :
  match timeAgo_parts now date with
  | JustNow => now - date < 60000
  | MinutesAgo n => 1 <= n <= 59 /\ 60000 <= now - date < 3600000
  | HoursAgo n => 1 <= n <= 23 /\ 3600000 <= now - date < 86400000
  | DaysAgo n => 1 <= n /\ 86400000 <= now - date
  end.
Proof.
  unfold timeAgo_parts.
  destruct ((now - date) / 1000 <? 60) eqn:H1;
    [apply Z.ltb_lt in H1 | apply Z.ltb_ge in H1].
  - Z.to_euclidean_division_equations; lia.
  - destruct ((now - date) / 1000 <? 3600) eqn:H2;
      [apply Z.ltb_lt in H2 | apply Z.ltb_ge in H2].
    + Z.to_euclidean_division_equations; lia.
    + destruct ((now - date) / 1000 <? 86400) eqn:H3;
        [apply Z.ltb_lt in H3 | apply Z.ltb_ge in H3];
        Z.to_euclidean_division_equations; lia.
Qed.

Example timeAgo_examples :
  timeAgo 10000000 9999000 = "Just now"
  /\ timeAgo 10000000 10500000 = "Just now"
  /\ timeAgo 10000000 6400000 = "1h ago"
  /\ timeAgo 100000000 0 = "1d ago"
  /\ timeAgo 10000000 9700000 = "5m ago".
Proof. repeat split; reflexivity. Qed.

(** ** The impact ring *)

Lemma Qfloor_ge_iff (z : Z) (x : Q) : z <= Qfloor x <-> (inject_Z z <= x)%Q.
Proof.
  split; intros H.
  - eapply Qle_trans; [| apply Qfloor_le]. rewrite <- Zle_Qle. exact H.
  - rewrite <- (Qfloor_Z z). apply Qfloor_resp_le, H.
Qed.

Section ProductFacts.

Variable times_100 : Q -> Q.

Abbreviation product s := (times_100 (score_or_half s)).
Abbreviation shown := (impactScore times_100).

Lemma impactScore_ge (sentiment_score : option Q) (z : Z) :
  z <= shown sentiment_score
  <-> (inject_Z z - 0.5 <= product sentiment_score)%Q.
Proof.
  unfold impactScore, Math_round. rewrite Qfloor_ge_iff.
  assert (Hhalf : (1 / 2 == 0.5)%Q) by reflexivity.
  rewrite Hhalf. split; intros H; lra.
Qed.

Lemma ring_color_spec (n : Z) :
  (ring_color n = "#f43f5e" <-> 70 <= n)
  /\ (ring_color n = "#fbbf24" <-> 40 <= n < 70)
  /\ (ring_color n = "#10b981" <-> n < 40).
Proof.
  unfold ring_color.
  destruct (70 <=? n) eqn:E70; [apply Z.leb_le in E70 | apply Z.leb_gt in E70];
    (destruct (40 <=? n) eqn:E40; [apply Z.leb_le in E40 | apply Z.leb_gt in E40]);
    repeat split; intros; try discriminate; try reflexivity; lia.
Qed.

(** X7. The ring of a news card follows the product the card computes,
    the sentiment score (or 0.5 when the score is missing or zero) times
    100 as binary64 rounds it: red exactly when the product is at least
    69.5, amber from 39.5 up to there, green below; a product between 0
    and 100 shows a number between 0 and 100; and a missing score and a
    score of zero show the same number, 50 when 0.5 times 100 is 50. *)
Theorem impact_ring_bands (sentiment_score : option Q) :
  (ring_color (shown sentiment_score) = "#f43f5e"
   <-> (69.5 <= product sentiment_score)%Q)
  /\ (ring_color (shown sentiment_score) = "#fbbf24"
      <-> (39.5 <= product sentiment_score)%Q /\ (product sentiment_score < 69.5)%Q)
  /\ (ring_color (shown sentiment_score) = "#10b981"
      <-> (product sentiment_score < 39.5)%Q)
  /\ ((0 <= product sentiment_score)%Q /\ (product sentiment_score <= 100)%Q ->
      0 <= shown sentiment_score <= 100)
  /\ (sentiment_score = None \/ (exists q, sentiment_score = Some q /\ (q == 0)%Q) ->
      shown sentiment_score = shown None
      /\ ((times_100 0.5 == 50)%Q -> shown sentiment_score = 50)).
Proof.
  pose proof (impactScore_ge sentiment_score 70) as H70.
  pose proof (impactScore_ge sentiment_score 40) as H40.
  pose proof (impactScore_ge sentiment_score 0) as H0.
  pose proof (impactScore_ge sentiment_score 101) as H101.
  change (inject_Z 70) with 70%Q in H70. change (inject_Z 40) with 40%Q in H40.
  change (inject_Z 0) with 0%Q in H0. change (inject_Z 101) with 101%Q in H101.
  destruct (ring_color_spec (shown sentiment_score)) as (Hred & Hamber & Hgreen).
  assert (Hlt70 : shown sentiment_score < 70 <-> (product sentiment_score < 69.5)%Q).
  { split; intros H.
    - apply Qnot_le_lt. intros Hle. assert (70 <= shown sentiment_score)
        by (apply H70; lra). lia.
    - apply Z.lt_nge. intros Hge. apply H70 in Hge. lra. }
  assert (Hlt40 : shown sentiment_score < 40 <-> (product sentiment_score < 39.5)%Q).
  { split; intros H.
    - apply Qnot_le_lt. intros Hle. assert (40 <= shown sentiment_score)
        by (apply H40; lra). lia.
    - apply Z.lt_nge. intros Hge. apply H40 in Hge. lra. }
  split; [| split; [| split; [| split]]].
  - rewrite Hred, H70. split; intros H; lra.
  - rewrite Hamber, H40, Hlt70. split; intros [Ha Hb]; split; lra.
  - rewrite Hgreen, Hlt40. reflexivity.
  - intros [Hlo Hhi]. split.
    + apply H0. lra.
    + destruct (Z_le_gt_dec 101 (shown sentiment_score)) as [H | H]; [| lia].
      apply H101 in H. lra.
  - intros Hfalsy.
    assert (Hsame : shown sentiment_score = shown None).
    { destruct Hfalsy as [-> | (q & -> & Hq)]; [reflexivity |].
      unfold impactScore, score_or_half. apply Qeq_bool_iff in Hq. rewrite Hq.
      reflexivity. }
    split; [exact Hsame |]. intros Hhalf. rewrite Hsame.
    unfold impactScore, score_or_half, Math_round. rewrite Hhalf. reflexivity.
Qed.

End ProductFacts.

(** In binary64 the score 0.285 shows 28, not 29: its product with 100
    is below 28.5.  The score 0.695 shows 70 and a red ring: its product
    is 69.5. *)
Lemma impact_ring_bands_witness :
  impactScore Binary64.times_100 (Some 0.285%Q) = 28
  /\ ring_color (impactScore Binary64.times_100 (Some 0.695%Q)) = "#f43f5e"
  /\ impactScore Binary64.times_100 (Some 0%Q) = 50.
Proof.
  split; [vm_compute; reflexivity |]. split.
  - apply (proj1 (impact_ring_bands Binary64.times_100 (Some 0.695%Q))).
    vm_compute. discriminate.
  - apply (proj2 (proj2 (proj2 (proj2
             (impact_ring_bands Binary64.times_100 (Some 0%Q)))))).
    + right. exists 0%Q. split; reflexivity.
    + vm_compute. reflexivity.
Defined.

(** ** The sentiment badge *)

(** X8. A sentiment label other than 'positive' and 'negative' that is not
    the name of a member every object inherits is shown as "Neutral";
    'positive' is shown as "Bullish" and 'negative' as "Bearish".  So the
    labels the pipeline state declares, 'bullish' and 'bearish', both read
    "Neutral" on a card. *)
Theorem badge_reads_neutral_for_other_labels (sentiment : string) :
  ~ In sentiment object_prototype_members ->
  badge_label sentiment
  = Some (if String.eqb sentiment "positive" then "Bullish"
          else if String.eqb sentiment "negative" then "Bearish"
          else "Neutral")
  /\ (sentiment <> "" -> card_badge_label (Some sentiment) = badge_label sentiment).
Proof.
  intros Hown. split.
  - unfold badge_label, config_lookup.
    destruct (String.eqb sentiment "positive"); [reflexivity |].
    destruct (String.eqb sentiment "negative"); [reflexivity |].
    destruct (String.eqb sentiment "neutral"); [reflexivity |].
    destruct (existsb (String.eqb sentiment) object_prototype_members) eqn:Hex;
      [| reflexivity].
    exfalso. apply existsb_exists in Hex as (m & Hm & Heq).
    apply String.eqb_eq in Heq. subst m. exact (Hown Hm).
  - intros Hne. unfold card_badge_label.
    destruct (String.eqb sentiment "") eqn:He; [| reflexivity].
    apply String.eqb_eq in He. contradiction.
Qed.

Lemma not_In_by_computation (x : string) (l : list string) :
  existsb (String.eqb x) l = false -> ~ In x l.
Proof.
  intros H Hin.
  assert (Hex : existsb (String.eqb x) l = true)
    by (apply existsb_exists; exists x; split; [exact Hin | apply String.eqb_refl]).
  congruence.
Qed.

Lemma badge_reads_neutral_for_other_labels_witness :
  card_badge_label (Some "bullish") = Some "Neutral"
  /\ card_badge_label (Some "bearish") = Some "Neutral".
Proof.
  split.
  - destruct (badge_reads_neutral_for_other_labels "bullish") as [Hb Hc];
      [apply not_In_by_computation; reflexivity |].
    rewrite Hc by discriminate. exact Hb.
  - destruct (badge_reads_neutral_for_other_labels "bearish") as [Hb Hc];
      [apply not_In_by_computation; reflexivity |].
    rewrite Hc by discriminate. exact Hb.
Defined.

(** ** Search history *)

Lemma add_to_history_length {A : Type} (results prev : list A) :
  (length prev <= 100)%nat -> (length (add_to_history results prev) <= 100)%nat.
Proof.
  intros H. unfold add_to_history. destruct results as [| r results]; [exact H |].
  rewrite length_take. lia.
Qed.

(** X9. The search history never grows past 100 entries, whatever is
    searched and however often, and after a search that returned results
    those results stand first, the older entries filling what room is
    left; a search without results leaves the history as it was. *)
Theorem history_bounded_newest_first {A : Type} (searches : list (list A))
        (results prev : list A) :
  ((length prev <= 100)%nat ->
   (length (fold_left (fun h r => add_to_history r h) searches prev) <= 100)%nat)
  /\ (results <> [] ->
      add_to_history results prev
      = take 100 results ++ take (100 - length results) prev)
  /\ add_to_history [] prev = prev
  /\ (length (history_page prev) <= 30)%nat.
Proof.
  split; [| split; [| split]].
  - revert prev. induction searches as [| r searches IH]; intros prev H; cbn [fold_left].
    + exact H.
    + apply IH, add_to_history_length, H.
  - intros Hne. unfold add_to_history. destruct results as [| r results]; [congruence |].
    apply take_app.
  - reflexivity.
  - unfold history_page. rewrite length_take. lia.
Qed.

Lemma history_bounded_newest_first_witness :
  add_to_history [1; 2; 3] [4; 5] = [1; 2; 3; 4; 5]
  /\ (length (fold_left (fun h r => add_to_history r h) [[7]; []; [8; 9]] [4; 5]) <= 100)%nat.
Proof.
  destruct (history_bounded_newest_first [[7]; []; [8; 9]] [1; 2; 3] [4; 5])
    as (Hlen & Hfront & _).
  split.
  - rewrite Hfront by discriminate. reflexivity.
  - apply Hlen. cbn. lia.
Defined.

(** ** Upvote counts *)

Lemma initial_count_bounds (random : Q) :
  (0 <= random)%Q -> (random < 1)%Q -> 5 <= initial_count random <= 54.
Proof.
  intros H0 H1. unfold initial_count.
  assert (Hlo : 0 <= Qfloor (random * 50)).
  { apply Qfloor_ge_iff. change (inject_Z 0) with 0%Q. lra. }
  assert (Hhi : Qfloor (random * 50) < 50).
  { apply Z.lt_nge. intros Hge. apply Qfloor_ge_iff in Hge.
    change (inject_Z 50) with 50%Q in Hge. lra. }
  lia.
Qed.

Lemma initialUpvotes_lookup (loaded : list (string * Q)) (acc : gmap string Z) (id : string) :
  (~ In id (map fst loaded) ->
   fold_left (fun u r => <[ fst r := initial_count (snd r) ]> u) loaded acc !! id = acc !! id)
  /\ (In id (map fst loaded) ->
      exists random, In (id, random) loaded
        /\ fold_left (fun u r => <[ fst r := initial_count (snd r) ]> u) loaded acc !! id
           = Some (initial_count random)).
Proof.
  revert acc. induction loaded as [| [i r] loaded IH]; intros acc; cbn [fold_left map fst snd].
  - split; [reflexivity | intros []].
  - destruct (IH (<[ i := initial_count r ]> acc)) as [IHout IHin]. split.
    + intros Hnot. rewrite IHout by (intros H; apply Hnot; right; exact H).
      apply lookup_insert_ne. intros ->. apply Hnot. left. reflexivity.
    + intros Hin. destruct (in_dec string_dec id (map fst loaded)) as [Hlater | Hnot].
      * destruct (IHin Hlater) as (random & Hr & Hl). exists random.
        split; [right; exact Hr | exact Hl].
      * destruct Hin as [-> | Hin]; [| contradiction].
        exists r. split; [left; reflexivity |].
        rewrite IHout by exact Hnot. apply lookup_insert_eq.
Qed.

(** X10. Loading a feed gives every loaded article a displayed count
    between 5 and 54, shows 0 for every other article, whatever count it
    had before, and leaves the set of articles the user has upvoted as it
    was. *)
Theorem load_upvotes_counts (loaded : list (string * Q)) (st : AppState) :
  (forall id random, In (id, random) loaded -> (0 <= random)%Q /\ (random < 1)%Q) ->
  let st' := load_upvotes loaded st in
  userUpvotes st' = userUpvotes st
  /\ (forall id, In id (map fst loaded) -> 5 <= displayed_upvotes st' id <= 54)
  /\ (forall id, ~ In id (map fst loaded) -> displayed_upvotes st' id = 0).
Proof.
  intros Hdraws. cbv zeta. split; [reflexivity |].
  unfold displayed_upvotes, count_or_zero, load_upvotes, initialUpvotes. cbn [upvotes].
  split; intros id Hid.
  - destruct (proj2 (initialUpvotes_lookup loaded ∅ id) Hid) as (random & Hr & ->).
    destruct (Hdraws _ _ Hr). apply initial_count_bounds; assumption.
  - rewrite (proj1 (initialUpvotes_lookup loaded ∅ id) Hid), lookup_empty. reflexivity.
Qed.

Lemma load_upvotes_counts_witness :
  5 <= displayed_upvotes (load_upvotes [("a1", 0.5%Q); ("a2", 0.99%Q)]
                                       (mkAppState ∅ ∅ ∅)) "a2" <= 54.
Proof.
  apply (load_upvotes_counts [("a1", 0.5%Q); ("a2", 0.99%Q)] (mkAppState ∅ ∅ ∅)).
  - intros id random [[= <- <-] | [[= <- <-] | []]];
      split; first [apply Qle_bool_iff; reflexivity | reflexivity].
  - right. left. reflexivity.
Defined.

Lemma toggleUpvote_keeps_tracking (base : gmap string Z) (st : AppState) (id : string) :
  (forall j, displayed_upvotes st j = count_or_zero base j + vote_of st j) ->
  forall j, displayed_upvotes (toggleUpvote id st) j
            = count_or_zero base j + vote_of (toggleUpvote id st) j.
Proof.
  intros Hinv j. unfold vote_of in *. unfold displayed_upvotes in *.
  destruct (decide (id ∈ userUpvotes st)) as [Hin | Hnin].
  - rewrite (DashboardProofs.toggleUpvote_member id st Hin). cbn [upvotes userUpvotes].
    destruct (decide (id = j)) as [<- | Hne].
    + rewrite DashboardProofs.count_or_zero_insert_eq, Hinv.
      rewrite decide_True by exact Hin. rewrite decide_False by set_solver. lia.
    + rewrite DashboardProofs.count_or_zero_insert_ne by exact Hne. rewrite Hinv.
      destruct (decide (j ∈ userUpvotes st)) as [Hj | Hj].
      * rewrite decide_True by set_solver. reflexivity.
      * rewrite decide_False by set_solver. reflexivity.
  - rewrite (DashboardProofs.toggleUpvote_fresh id st Hnin). cbn [upvotes userUpvotes].
    destruct (decide (id = j)) as [<- | Hne].
    + rewrite DashboardProofs.count_or_zero_insert_eq, Hinv.
      rewrite decide_False by exact Hnin. rewrite decide_True by set_solver. lia.
    + rewrite DashboardProofs.count_or_zero_insert_ne by exact Hne. rewrite Hinv.
      destruct (decide (j ∈ userUpvotes st)) as [Hj | Hj].
      * rewrite decide_True by set_solver. reflexivity.
      * rewrite decide_False by set_solver. reflexivity.
Qed.

Lemma fold_toggleUpvote_keeps_tracking (base : gmap string Z) (clicks : list string)
      (st : AppState) :
  (forall j, displayed_upvotes st j = count_or_zero base j + vote_of st j) ->
  forall j, displayed_upvotes (fold_left (fun s id => toggleUpvote id s) clicks st) j
            = count_or_zero base j
              + vote_of (fold_left (fun s id => toggleUpvote id s) clicks st) j.
Proof.
  revert st. induction clicks as [| c clicks IH]; intros st Hst; cbn [fold_left].
  - exact Hst.
  - apply IH, toggleUpvote_keeps_tracking, Hst.
Qed.

(** X11. Between two feed loads a user moves a count by at most one: from
    a state in which nothing is upvoted, after any sequence of upvote
    clicks every article shows its loaded count plus one when it is in the
    user's upvote set and its loaded count otherwise. *)
Theorem upvotes_track_membership (clicks : list string) (st : AppState) :
  userUpvotes st = ∅ ->
  let st' := fold_left (fun s id => toggleUpvote id s) clicks st in
  forall id,
    displayed_upvotes st' id = displayed_upvotes st id + vote_of st' id.
Proof.
  intros Hempty. cbv zeta. intros id.
  apply (fold_toggleUpvote_keeps_tracking (upvotes st)).
  intros j. unfold vote_of. rewrite decide_False by (rewrite Hempty; set_solver).
  unfold displayed_upvotes. lia.
Qed.

Lemma upvotes_track_membership_witness :
  displayed_upvotes
    (fold_left (fun s id => toggleUpvote id s) ["a1"; "a2"; "a1"; "a2"; "a2"]
               (load_upvotes [("a1", 0.5%Q); ("a2", 0.99%Q)] (mkAppState ∅ ∅ ∅))) "a2"
  = 54 + 1.
Proof.
  rewrite (upvotes_track_membership ["a1"; "a2"; "a1"; "a2"; "a2"]
             (load_upvotes [("a1", 0.5%Q); ("a2", 0.99%Q)] (mkAppState ∅ ∅ ∅)) eq_refl "a2").
  reflexivity.
Defined.

(** X12. A feed load resets the counts but not the user's upvote set, so
    the first click on an article that was upvoted before the load takes
    one off its freshly loaded count and removes it from the set. *)
Theorem click_after_reload_lowers_count (loaded : list (string * Q)) (st : AppState)
        (id : string) :
  id ∈ userUpvotes st ->
  let reloaded := load_upvotes loaded st in
  displayed_upvotes (toggleUpvote id reloaded) id = displayed_upvotes reloaded id - 1
  /\ (id ∉ userUpvotes (toggleUpvote id reloaded))
  /\ (forall j, j <> id ->
        displayed_upvotes (toggleUpvote id reloaded) j = displayed_upvotes reloaded j).
Proof.
  intros Hin. cbv zeta.
  assert (Hin' : id ∈ userUpvotes (load_upvotes loaded st)) by exact Hin.
  rewrite (DashboardProofs.toggleUpvote_member id _ Hin').
  unfold displayed_upvotes. cbn [upvotes userUpvotes]. split; [| split].
  - apply DashboardProofs.count_or_zero_insert_eq.
  - set_solver.
  - intros j Hne. apply DashboardProofs.count_or_zero_insert_ne. congruence.
Qed.

Lemma click_after_reload_lowers_count_witness :
  displayed_upvotes
    (toggleUpvote "a1" (load_upvotes [("a1", 0%Q)] (toggleUpvote "a1" (mkAppState ∅ ∅ ∅))))
    "a1" = 5 - 1.
Proof.
  destruct (click_after_reload_lowers_count [("a1", 0%Q)]
              (toggleUpvote "a1" (mkAppState ∅ ∅ ∅)) "a1") as (H & _).
  - vm_compute. set_solver.
  - rewrite H. reflexivity.
Defined.

(** X13. Clicks on different articles are independent: two upvote clicks
    on different ids give the same state in either order, and an upvote
    click and a bookmark click give the same state in either order, on
    the same id or not. *)
Theorem clicks_commute (st : AppState) (i j : string) :
  (i <> j -> toggleUpvote i (toggleUpvote j st) = toggleUpvote j (toggleUpvote i st))
  /\ toggleBookmark i (toggleUpvote j st) = toggleUpvote j (toggleBookmark i st)
  /\ (i <> j -> toggleBookmark i (toggleBookmark j st)
                = toggleBookmark j (toggleBookmark i st)).
Proof.
  split; [| split].
  - intros Hne.
    destruct (decide (i ∈ userUpvotes st)) as [Hi | Hi];
      destruct (decide (j ∈ userUpvotes st)) as [Hj | Hj].
    + rewrite (DashboardProofs.toggleUpvote_member j st Hj),
        (DashboardProofs.toggleUpvote_member i st Hi).
      rewrite !DashboardProofs.toggleUpvote_member by (cbn [userUpvotes]; set_solver).
      cbn [bookmarks upvotes userUpvotes].
      rewrite !DashboardProofs.count_or_zero_insert_ne by congruence.
      f_equal; [apply insert_insert_ne; congruence | apply set_eq; set_solver].
    + rewrite (DashboardProofs.toggleUpvote_fresh j st Hj),
        (DashboardProofs.toggleUpvote_member i st Hi).
      rewrite DashboardProofs.toggleUpvote_member by (cbn [userUpvotes]; set_solver).
      rewrite DashboardProofs.toggleUpvote_fresh by (cbn [userUpvotes]; set_solver).
      cbn [bookmarks upvotes userUpvotes].
      rewrite !DashboardProofs.count_or_zero_insert_ne by congruence.
      f_equal; [apply insert_insert_ne; congruence | apply set_eq; set_solver].
    + rewrite (DashboardProofs.toggleUpvote_member j st Hj),
        (DashboardProofs.toggleUpvote_fresh i st Hi).
      rewrite DashboardProofs.toggleUpvote_fresh by (cbn [userUpvotes]; set_solver).
      rewrite DashboardProofs.toggleUpvote_member by (cbn [userUpvotes]; set_solver).
      cbn [bookmarks upvotes userUpvotes].
      rewrite !DashboardProofs.count_or_zero_insert_ne by congruence.
      f_equal; [apply insert_insert_ne; congruence | apply set_eq; set_solver].
    + rewrite (DashboardProofs.toggleUpvote_fresh j st Hj),
        (DashboardProofs.toggleUpvote_fresh i st Hi).
      rewrite !DashboardProofs.toggleUpvote_fresh by (cbn [userUpvotes]; set_solver).
      cbn [bookmarks upvotes userUpvotes].
      rewrite !DashboardProofs.count_or_zero_insert_ne by congruence.
      f_equal; [apply insert_insert_ne; congruence | apply set_eq; set_solver].
  - unfold toggleBookmark, toggleUpvote.
    cbn [bookmarks upvotes userUpvotes].
    destruct (decide (j ∈ userUpvotes st)); reflexivity.
  - intros Hne. unfold toggleBookmark. cbn [bookmarks upvotes userUpvotes]. f_equal.
    destruct (decide (i ∈ bookmarks st)) as [Hi | Hi];
      destruct (decide (j ∈ bookmarks st)) as [Hj | Hj];
      repeat first [ rewrite decide_True by set_solver
                   | rewrite decide_False by set_solver ];
      apply set_eq; set_solver.
Qed.

Lemma clicks_commute_witness :
  toggleUpvote "a1" (toggleUpvote "a2" (mkAppState ∅ ∅ ∅))
  = toggleUpvote "a2" (toggleUpvote "a1" (mkAppState ∅ ∅ ∅)).
Proof.
  apply (clicks_commute (mkAppState ∅ ∅ ∅) "a1" "a2"). discriminate.
Defined.

(** X14. On the bookmarks page every card belongs to a bookmarked article
    of the current results, and a click on the bookmark button of a shown
    card removes the cards of that article and no other card. *)
Theorem unbookmark_removes_its_cards (result_ids : list string) (st : AppState)
        (id : string) :
  (forall c, In c (bookmarked_cards result_ids st) -> c ∈ bookmarks st /\ In c result_ids)
  /\ (id ∈ bookmarks st ->
      bookmarked_cards result_ids (toggleBookmark id st)
      = List.filter (fun c => negb (String.eqb c id)) (bookmarked_cards result_ids st)).
Proof.
  split.
  - intros c Hc. unfold bookmarked_cards in Hc. apply List.filter_In in Hc as [Hin Hb].
    apply bool_decide_eq_true in Hb. split; assumption.
  - intros Hid. unfold bookmarked_cards, toggleBookmark. cbn [bookmarks].
    rewrite decide_True by exact Hid.
    induction result_ids as [| c rest IH]; [reflexivity |]. cbn [List.filter].
    destruct (String.eqb c id) eqn:Hc.
    + apply String.eqb_eq in Hc. subst c.
      rewrite bool_decide_eq_false_2 by set_solver.
      rewrite bool_decide_eq_true_2 by exact Hid.
      cbn [List.filter]. rewrite String.eqb_refl. exact IH.
    + apply String.eqb_neq in Hc.
      destruct (bool_decide (c ∈ bookmarks st)) eqn:Hb.
      * apply bool_decide_eq_true in Hb.
        rewrite bool_decide_eq_true_2 by set_solver.
        cbn [List.filter]. rewrite (proj2 (String.eqb_neq c id) Hc). cbn [negb].
        rewrite IH. reflexivity.
      * apply bool_decide_eq_false in Hb.
        rewrite bool_decide_eq_false_2 by set_solver. exact IH.
Qed.

Lemma unbookmark_removes_its_cards_witness :
  bookmarked_cards ["a1"; "a2"; "a3"]
    (toggleBookmark "a2" (mkAppState {[ "a1"; "a2" ]} ∅ ∅)) = ["a1"].
Proof.
  rewrite (proj2 (unbookmark_removes_its_cards ["a1"; "a2"; "a3"]
                    (mkAppState {[ "a1"; "a2" ]} ∅ ∅) "a2")).
  - reflexivity.
  - cbn [bookmarks]. set_solver.
Defined.

End DashboardViewProofs.

(* ===================================================================== *)
(** * Properties of the processing graph *)
(* ===================================================================== *)

Module GraphProofs.
Import Graph.

Section NewsGraph.

Context {State : Type}.
Variable node : Node -> State -> State.
Variable should_skip_duplicate : State -> string.

Abbreviation news_graph := (build_news_processing_graph should_skip_duplicate).

Lemma run_from_step (steps : nat) (current : Node) (s : State) (executed : list Node) :
  run_from news_graph node (S steps) current s executed
  = match successor news_graph current s with
    | inl END => Finished executed s
    | inl next => run_from news_graph node steps next (node next s) (executed ++ [next])
    | inr (Some answer) => UnknownRoute executed answer s
    | inr None => NoEdge executed s
    end.
Proof. reflexivity. Qed.

Lemma successor_plain (current next : Node) (s : State) :
  In (current, next)
     [ (START, ingest); (ingest, dedup); (ner, impact); (impact, sentiment);
       (sentiment, storage); (storage, END) ] ->
  successor news_graph current s = inl next.
Proof.
  intros Hin. repeat (destruct Hin as [Heq | Hin]; [injection Heq as <- <-; reflexivity |]).
  destruct Hin.
Qed.

Lemma successor_dedup (s : State) :
  successor news_graph dedup s
  = (if String.eqb "skip" (should_skip_duplicate s) then inl END
     else if String.eqb "continue" (should_skip_duplicate s) then inl ner
          else inr (Some (should_skip_duplicate s))).
Proof.
  unfold successor, lookup_node, lookup_answer. cbn [build_news_processing_graph
    conditional_edges List.find fst snd Node_eqb].
  destruct (String.eqb "skip" (should_skip_duplicate s)); [reflexivity |].
  destruct (String.eqb "continue" (should_skip_duplicate s)); reflexivity.
Qed.

(** X15. Whatever the nodes do to the state, a run of the news graph
    executes [ingest] and [dedup] and then asks the router once, on the
    state [dedup] left: on "skip" it ends there, on "continue" it executes
    [ner], [impact], [sentiment] and [storage] in this order and ends, and
    on any other answer it stops with that answer unrouted.  So [storage]
    runs exactly when the router says "continue". *)
Theorem graph_runs_by_router_answer (steps : nat) (s : State) :
  (7 <= steps)%nat ->
  let checked := node dedup (node ingest s) in
  let answer := should_skip_duplicate checked in
  (answer = "skip" -> invoke news_graph node steps s = Finished [ingest; dedup] checked)
  /\ (answer = "continue" ->
      invoke news_graph node steps s
      = Finished [ingest; dedup; ner; impact; sentiment; storage]
                 (node storage (node sentiment (node impact (node ner checked)))))
  /\ (answer <> "skip" -> answer <> "continue" ->
      invoke news_graph node steps s = UnknownRoute [ingest; dedup] answer checked).
Proof.
  intros Hsteps. cbv zeta.
  do 7 (destruct steps as [| steps]; [lia |]). clear Hsteps.
  unfold invoke.
  rewrite run_from_step, (successor_plain START ingest) by (cbn; tauto).
  rewrite run_from_step, (successor_plain ingest dedup) by (cbn; tauto).
  rewrite run_from_step, successor_dedup. cbn [app].
  repeat split.
  - intros Hskip. rewrite Hskip. reflexivity.
  - intros Hcont. rewrite Hcont. cbn [String.eqb Ascii.eqb Bool.eqb].
    rewrite run_from_step, (successor_plain ner impact) by (cbn; tauto).
    rewrite run_from_step, (successor_plain impact sentiment) by (cbn; tauto).
    rewrite run_from_step, (successor_plain sentiment storage) by (cbn; tauto).
    rewrite run_from_step, (successor_plain storage END) by (cbn; tauto).
    reflexivity.
  - intros Hskip Hcont.
    rewrite (proj2 (String.eqb_neq _ _)) by congruence.
    rewrite (proj2 (String.eqb_neq _ _)) by congruence.
    reflexivity.
Qed.

End NewsGraph.

Lemma graph_runs_by_router_answer_witness :
  invoke (build_news_processing_graph (fun seen : list Node =>
                                         if Nat.ltb (length seen) 3 then "continue"%string
                                         else "skip"%string))
         (fun n seen => seen ++ [n]) 10 []
  = Finished [ingest; dedup; ner; impact; sentiment; storage]
             [ingest; dedup; ner; impact; sentiment; storage].
Proof.
  apply (graph_runs_by_router_answer (fun n seen => seen ++ [n])
           (fun seen : list Node =>
              if Nat.ltb (length seen) 3 then "continue"%string else "skip"%string)
           10 []).
  - lia.
  - reflexivity.
Defined.

End GraphProofs.

(* ===================================================================== *)
(** * Properties of health, cluster review and lazy loading *)
(* ===================================================================== *)

Module OperationsProofs.
Import Operations.

(** X16. The dashboard's health flag is on exactly when all four checks
    of the endpoint pass, while the earlier header reads "Live" for every
    response, a degraded one included. *)
Theorem health_flag_needs_every_check (checks : Checks) :
  (isHealthy (Responded (health checks)) = true <->
   chromadb checks = true /\ postgres checks = true
   /\ finbert checks = true /\ llm checks = true)
  /\ live_badge (Responded (health checks)) = "Live".
Proof.
  split; [| reflexivity].
  destruct checks as [[] [] [] []]; cbn; intuition congruence.
Qed.

Lemma Qmin_choice (a b : Q) : Qmin a b = a \/ Qmin a b = b.
Proof.
  unfold Qmin, GenericMinMax.gmin. destruct (a ?= b)%Q; auto.
Qed.

Lemma py_max_upper (first : Q) (rest : list Q) (q : Q) :
  In q (first :: rest) -> (q <= py_max first rest)%Q.
Proof. apply ImpactProofs.fold_left_Qmax_upper. Qed.

Lemma py_max_attained (first : Q) (rest : list Q) :
  In (py_max first rest) (first :: rest).
Proof. apply ImpactProofs.fold_left_Qmax_attained. Qed.

Lemma py_min_lower (first : Q) (rest : list Q) (q : Q) :
  In q (first :: rest) -> (py_min first rest <= q)%Q.
Proof.
  unfold py_min. revert first q.
  induction rest as [| q1 rest IH]; intros first q Hq; cbn [fold_left].
  - destruct Hq as [Heq | []]. subst q. apply Qle_refl.
  - destruct Hq as [Heq | [Heq | Hq]].
    + subst q. eapply Qle_trans; [| apply Q.le_min_l]. apply IH. left; reflexivity.
    + subst q. eapply Qle_trans; [| apply Q.le_min_r]. apply IH. left; reflexivity.
    + apply IH. right; exact Hq.
Qed.

Lemma py_min_attained (first : Q) (rest : list Q) :
  In (py_min first rest) (first :: rest).
Proof.
  unfold py_min. revert first.
  induction rest as [| q1 rest IH]; intros first; cbn [fold_left].
  - left; reflexivity.
  - destruct (IH (Qmin first q1)) as [H | H].
    + rewrite <- H. destruct (Qmin_choice first q1) as [Hc | Hc]; rewrite Hc.
      * left; reflexivity.
      * right; left; reflexivity.
    + right; right; exact H.
Qed.

Lemma all_present_map_Some (qs : list Q) : all_present (map Some qs) = Some qs.
Proof.
  induction qs as [| q qs IH]; [reflexivity |]. cbn [map all_present].
  rewrite IH. reflexivity.
Qed.

Lemma all_present_missing (scores : list (option Q)) :
  In None scores -> all_present scores = None.
Proof.
  induction scores as [| [q |] scores IH]; intros Hin; cbn [all_present].
  - destruct Hin.
  - destruct Hin as [Heq | Hin]; [discriminate |]. rewrite (IH Hin). reflexivity.
  - reflexivity.
Qed.

(** X17. The variance rule on a duplicate cluster: a cluster in which
    some article has no sentiment score makes it raise [TypeError]; with
    all scores there, the flag afterwards is set exactly when it was set
    before or two scores of the cluster lie more than 0.5 apart.  The rule
    never clears the flag. *)
Theorem review_cluster_flags_spread (cluster_sentiments : list (option Q))
        (needs_review : bool) :
  cluster_sentiments <> [] ->
  (In None cluster_sentiments ->
   review_cluster cluster_sentiments needs_review = inl TypeError)
  /\ (forall scores, cluster_sentiments = map Some scores ->
      exists flag,
        review_cluster cluster_sentiments needs_review = inr flag
        /\ (flag = true <->
            needs_review = true
            \/ exists high low, In high scores /\ In low scores
                                /\ (0.5 < high - low)%Q)).
Proof.
  intros Hne. split.
  - intros Hin. unfold review_cluster.
    destruct cluster_sentiments as [| first rest]; [contradiction |].
    rewrite (all_present_missing _ Hin). reflexivity.
  - intros scores Hscores. subst cluster_sentiments.
    destruct scores as [| q qs]; [contradiction |].
    unfold review_cluster. cbn [map]. change (Some q :: map Some qs) with (map Some (q :: qs)).
    rewrite all_present_map_Some.
    destruct (Qle_bool (py_max q qs - py_min q qs) 0.5) eqn:Hspread.
    + exists needs_review. split; [reflexivity |]. split; [auto |].
      intros [Hflag | (high & low & Hhigh & Hlow & Hgap)]; [exact Hflag |].
      exfalso. apply Qle_bool_iff in Hspread.
      pose proof (py_max_upper q qs high Hhigh).
      pose proof (py_min_lower q qs low Hlow). lra.
    + exists true. split; [reflexivity |]. split; [| reflexivity].
      intros _. right. exists (py_max q qs), (py_min q qs).
      split; [apply py_max_attained |]. split; [apply py_min_attained |].
      apply Qnot_le_lt. intros Hle. apply Qle_bool_iff in Hle. congruence.
Qed.

Lemma review_cluster_flags_spread_witness :
  review_cluster [Some 0.9%Q; None; Some (-0.2)%Q] false = inl TypeError.
Proof.
  apply (review_cluster_flags_spread [Some 0.9%Q; None; Some (-0.2)%Q] false).
  - discriminate.
  - right; left; reflexivity.
Defined.

Section LoadingFacts.

Variable PipelineObject : Type.
Variable build_pipeline : PipelineObject.

(** X18. However often [_load_model] is called, the model is built at
    most once more: after at least one call the agent is loaded, holds a
    pipeline if it was not loaded before, and has built the model once
    more than before exactly when it was not loaded before. *)
Theorem load_model_builds_once (calls : nat) (self : Agent PipelineObject) :
  (1 <= calls)%nat ->
  let loaded := Nat.iter calls (_load_model build_pipeline) self in
  _is_loaded loaded = true
  /\ builds loaded = (if _is_loaded self then builds self else S (builds self))
  /\ pipeline loaded = (if _is_loaded self then pipeline self else Some build_pipeline).
Proof.
  intros Hcalls. cbv zeta.
  destruct calls as [| calls]; [lia |]. clear Hcalls.
  induction calls as [| calls IH].
  - cbn [Nat.iter nat_rect]. unfold _load_model.
    destruct (_is_loaded self) eqn:Hl; cbn; auto.
  - change (Nat.iter (S (S calls)) (_load_model build_pipeline) self)
      with (_load_model build_pipeline
              (Nat.iter (S calls) (_load_model build_pipeline) self)).
    destruct IH as (Hl & Hb & Hp).
    unfold _load_model at 1 3 5. rewrite Hl. auto.
Qed.

End LoadingFacts.

Lemma load_model_builds_once_witness :
  builds (Nat.iter 4 (_load_model tt) new_agent) = 1%nat.
Proof.
  apply (load_model_builds_once unit tt 4 new_agent). lia.
Defined.

End OperationsProofs.

(* ===================================================================== *)
(** * Properties of the embedding cache and of batch ingestion *)
(* ===================================================================== *)

Module IngestionProofs.
Import Errors Dedup Ingestion.

Section CacheFacts.

Variable Embedding : Type.
Variable md5 : string -> string.
Variable encode : string -> outcome Embedding.

Abbreviation get_or_compute := (Ingestion.get_or_compute md5 encode).
Abbreviation get_all := (Ingestion.get_all md5 encode).

Lemma get_or_compute_keeps (text : string) (self : CacheState Embedding)
      (k : string) (e : Embedding) :
  cache self !! k = Some e ->
  cache (snd (get_or_compute text self)) !! k = Some e.
Proof.
  intros Hk. unfold Ingestion.get_or_compute.
  destruct (cache self !! md5 text) eqn:Hhit; [exact Hk |].
  destruct (encode text); cbn [snd cache]; [| exact Hk].
  rewrite lookup_insert_ne by congruence. exact Hk.
Qed.

Lemma get_all_keeps (texts : list string) (self : CacheState Embedding)
      (k : string) (e : Embedding) :
  cache self !! k = Some e -> cache (get_all texts self) !! k = Some e.
Proof.
  revert self. induction texts as [| t texts IH]; intros self Hk; [exact Hk |].
  unfold Ingestion.get_all. cbn [fold_left]. apply IH.
  apply get_or_compute_keeps. exact Hk.
Qed.

Lemma get_or_compute_stores (text : string) (self : CacheState Embedding)
      (e : Embedding) :
  fst (get_or_compute text self) = Returned e ->
  cache (snd (get_or_compute text self)) !! md5 text = Some e.
Proof.
  unfold Ingestion.get_or_compute.
  destruct (cache self !! md5 text) eqn:Hhit.
  - cbn [fst snd]. intros Heq. injection Heq as Heq. subst. exact Hhit.
  - destruct (encode text); cbn [fst snd cache]; intros Heq; [| discriminate].
    injection Heq as Heq. subst. apply lookup_insert_eq.
Qed.

Lemma get_or_compute_hit (text : string) (self : CacheState Embedding) (e : Embedding) :
  cache self !! md5 text = Some e -> get_or_compute text self = (Returned e, self).
Proof. intros Hhit. unfold Ingestion.get_or_compute. rewrite Hhit. reflexivity. Qed.

Lemma get_or_compute_miss (text : string) (self : CacheState Embedding) (e : Embedding) :
  cache self !! md5 text = None -> encode text = Returned e ->
  get_or_compute text self
  = (Returned e, mkCacheState (<[md5 text:=e]> (cache self)) (encoded self ++ [text])).
Proof.
  intros Hmiss He. unfold Ingestion.get_or_compute. rewrite Hmiss, He. reflexivity.
Qed.

(** X19. An embedding the cache has returned once is what it returns for
    that text from then on, after any number of other calls, without
    calling the model and without changing the cache: entries are never
    evicted and never overwritten, whatever [cache_size] and [ttl] say.
    The same holds for another text with the same MD5 digest, which gets
    the first text's embedding. *)
Theorem cached_embedding_is_reused (text : string) (self : CacheState Embedding)
        (e : Embedding) (texts : list string) (text' : string) :
  fst (get_or_compute text self) = Returned e ->
  md5 text' = md5 text ->
  let later := get_all texts (snd (get_or_compute text self)) in
  get_or_compute text' later = (Returned e, later).
Proof.
  intros Hret Hmd5. cbv zeta.
  pose proof (get_all_keeps texts _ _ _ (get_or_compute_stores _ _ _ Hret)) as Hkept.
  apply get_or_compute_hit. rewrite Hmd5. exact Hkept.
Qed.

(** X20. When the model answers for every text of a run of calls, the
    cache afterwards holds the entries it had and one for every digest of
    the run, and the model was called once for each digest that was not
    cached before and never for a cached one. *)
Theorem model_called_once_per_digest (texts : list string)
        (self : CacheState Embedding) :
  (forall t, t ∈ texts -> exists e, encode t = Returned e) ->
  dom (cache (get_all texts self))
  = dom (cache self) ∪ list_to_set (md5 <$> texts)
  /\ exists computed,
      encoded (get_all texts self) = encoded self ++ computed
      /\ NoDup (md5 <$> computed)
      /\ (forall t, t ∈ computed -> t ∈ texts /\ md5 t ∉ dom (cache self))
      /\ (forall t, t ∈ texts -> md5 t ∉ dom (cache self) ->
          md5 t ∈ md5 <$> computed).
Proof.
  revert self. induction texts as [| t texts IH]; intros self Hok.
  - split; [cbn; set_solver |]. exists []. cbn. rewrite app_nil_r.
    split; [reflexivity |]. split; [constructor |]. split; set_solver.
  - unfold Ingestion.get_all. cbn [fold_left].
    change (fold_left (fun st text => snd (get_or_compute text st)) texts ?s)
      with (get_all texts s).
    assert (Hrest : forall t', t' ∈ texts -> exists e, encode t' = Returned e)
      by (intros t' Ht'; apply Hok; set_solver).
    destruct (cache self !! md5 t) as [hit |] eqn:Hhit.
    + rewrite (get_or_compute_hit t self hit Hhit). cbn [snd].
      destruct (IH self Hrest) as (Hdom & computed & Henc & Hnd & Hfresh & Hall).
      assert (Hin : md5 t ∈ dom (cache self)) by (apply elem_of_dom; eauto).
      split; [rewrite Hdom; cbn [fmap list_fmap]; set_solver |].
      exists computed. split; [exact Henc |]. split; [exact Hnd |]. split.
      * intros t' Ht'. destruct (Hfresh t' Ht'). split; set_solver.
      * intros t' Ht' Hnew. apply elem_of_cons in Ht' as [Heq | Ht'].
        -- subst t'. contradiction.
        -- apply Hall; assumption.
    + destruct (Hok t) as [e He]; [set_solver |].
      rewrite (get_or_compute_miss t self e Hhit He). cbn [snd].
      destruct (IH (mkCacheState (<[md5 t:=e]> (cache self)) (encoded self ++ [t]))
                   Hrest) as (Hdom & computed & Henc & Hnd & Hfresh & Hall).
      cbn [cache encoded] in Hdom, Henc, Hfresh, Hall.
      rewrite dom_insert_L in Hdom, Hfresh, Hall.
      split; [rewrite Hdom; cbn [fmap list_fmap]; set_solver |].
      exists (t :: computed). split; [rewrite Henc, <- app_assoc; reflexivity |].
      assert (Hnone : md5 t ∉ dom (cache self)) by (apply not_elem_of_dom; exact Hhit).
      split; [| split].
      * cbn [fmap list_fmap]. apply NoDup_cons. split; [| exact Hnd].
        intros Hin. apply list_elem_of_fmap in Hin as (t' & Heq & Ht').
        destruct (Hfresh t' Ht') as [_ Hnot]. set_solver.
      * intros t' Ht'. apply elem_of_cons in Ht' as [Heq | Ht'].
        -- subst t'. split; [set_solver | exact Hnone].
        -- destruct (Hfresh t' Ht'). split; set_solver.
      * intros t' Ht' Hnew. cbn [fmap list_fmap].
        destruct (decide (md5 t' = md5 t)) as [Heq | Hne]; [set_solver |].
        apply elem_of_cons in Ht' as [Heq | Ht']; [subst; contradiction |].
        apply elem_of_cons. right. apply Hall; [exact Ht' | set_solver].
Qed.

End CacheFacts.

Lemma cached_embedding_is_reused_witness :
  Ingestion.get_or_compute (fun t => String.substring 0 1 t)
    (fun t => Returned (String.length t)) "ab"
    (Ingestion.get_all (fun t => String.substring 0 1 t)
       (fun t => Returned (String.length t)) ["b"; "c"]
       (snd (Ingestion.get_or_compute (fun t => String.substring 0 1 t)
               (fun t => Returned (String.length t)) "abcd"
               (mkCacheState ∅ []))))
  = (Returned 4%nat,
     Ingestion.get_all (fun t => String.substring 0 1 t)
       (fun t => Returned (String.length t)) ["b"; "c"]
       (snd (Ingestion.get_or_compute (fun t => String.substring 0 1 t)
               (fun t => Returned (String.length t)) "abcd"
               (mkCacheState ∅ [])))).
Proof.
  apply (cached_embedding_is_reused nat (fun t => String.substring 0 1 t)
           (fun t => Returned (String.length t)) "abcd" (mkCacheState ∅ []) 4%nat
           ["b"; "c"] "ab"); reflexivity.
Defined.

Lemma model_called_once_per_digest_witness :
  dom (cache (Ingestion.get_all (fun t => String.substring 0 1 t)
                (fun t => Returned (String.length t)) ["ab"; "b"; "abc"]
                (mkCacheState ∅ [])))
  = dom (∅ : gmap string nat)
    ∪ list_to_set ((fun t => String.substring 0 1 t) <$> ["ab"; "b"; "abc"]).
Proof.
  apply (model_called_once_per_digest nat (fun t => String.substring 0 1 t)
           (fun t => Returned (String.length t)) ["ab"; "b"; "abc"]
           (mkCacheState ∅ [])).
  intros t _. eexists. reflexivity.
Defined.

Section BatchFacts.

Variable Embedding : Type.
Variable generate_embedding : string -> outcome Embedding.
Variable embedding_of : NewsArticle -> Embedding.

Abbreviation ingest_from := (Ingestion.ingest_from generate_embedding).
Abbreviation ingest_batch := (Ingestion.ingest_batch generate_embedding).
Abbreviation tasks_of batch := (map (fun a => generate_embedding (content a)) batch).
Abbreviation slice i articles := (take BATCH_SIZE (drop i articles)).
Abbreviation add_call_of batch :=
  (mkAddCall (map article_id batch) (map embedding_of batch) (map content batch)).

Lemma gather_all_returned (batch : list NewsArticle) :
  (forall a, In a batch -> generate_embedding (content a) = Returned (embedding_of a)) ->
  gather (tasks_of batch) = Returned (map embedding_of batch).
Proof.
  induction batch as [| a batch IH]; intros Hok; [reflexivity |].
  cbn [map gather]. rewrite (Hok a) by (left; reflexivity).
  rewrite IH by (intros b Hb; apply Hok; right; exact Hb). reflexivity.
Qed.

Lemma gather_first_failure (good : list NewsArticle) (bad : NewsArticle)
      (rest : list NewsArticle) (e : PipelineError) :
  (forall a, In a good -> generate_embedding (content a) = Returned (embedding_of a)) ->
  generate_embedding (content bad) = Raised e ->
  gather (tasks_of (good ++ bad :: rest)) = Raised e.
Proof.
  intros Hok Hbad. induction good as [| a good IH].
  - cbn [app map gather]. rewrite Hbad. reflexivity.
  - cbn [app map gather]. rewrite (Hok a) by (left; reflexivity).
    rewrite IH by (intros b Hb; apply Hok; right; exact Hb). reflexivity.
Qed.

Lemma ingest_from_prefix (articles : list NewsArticle) (done todo : list nat)
      (calls : list (AddCall Embedding)) :
  (forall i a, In i done -> In a (slice i articles) ->
               generate_embedding (content a) = Returned (embedding_of a)) ->
  ingest_from (done ++ todo) articles calls
  = ingest_from todo articles
      (calls ++ map (fun i => add_call_of (slice i articles)) done).
Proof.
  revert calls. induction done as [| i done IH]; intros calls Hok.
  - cbn [app map]. rewrite app_nil_r. reflexivity.
  - cbn [app map Ingestion.ingest_from]. unfold bind at 1, call at 1.
    rewrite gather_all_returned
      by (intros a Ha; apply (Hok i); [left; reflexivity | exact Ha]).
    unfold bind at 1, collection_add at 1.
    rewrite IH by (intros j a Hj Ha; apply (Hok j); [right; exact Hj | exact Ha]).
    rewrite <- app_assoc. reflexivity.
Qed.

Lemma batch_count_bounds (n : nat) :
  (n <= (n + 50 - 1) / 50 * 50 < n + 50)%nat.
Proof.
  pose proof (Nat.div_mod_eq (n + 50 - 1) 50) as Hdiv.
  pose proof (Nat.mod_upper_bound (n + 50 - 1) 50) as Hmod.
  lia.
Qed.

Lemma floor_bounds (p : nat) : (p / 50 * 50 <= p < p / 50 * 50 + 50)%nat.
Proof.
  pose proof (Nat.div_mod_eq p 50) as Hdiv.
  pose proof (Nat.mod_upper_bound p 50) as Hmod.
  lia.
Qed.

Lemma slices_concat (articles : list NewsArticle) (m : nat) :
  concat (map (fun k => slice (k * BATCH_SIZE) articles) (seq 0 m))
  = take (m * BATCH_SIZE) articles.
Proof.
  induction m as [| m IH]; [reflexivity |].
  rewrite List.seq_S, map_app, concat_app, IH. cbn [map concat plus].
  rewrite app_nil_r, take_take_drop. f_equal. lia.
Qed.

Lemma In_slice (i : nat) (articles : list NewsArticle) (a : NewsArticle) :
  In a (slice i articles) -> In a articles.
Proof.
  intros Ha. apply list_elem_of_In in Ha. apply list_elem_of_In.
  eapply subseteq_drop, subseteq_take. exact Ha.
Qed.

(** X21. When every embedding is generated, [ingest_batch] returns after
    one [collection.add] per batch: the batches, in order, make up the
    articles, each holds between 1 and 50 of them, there are
    [ceil(n / 50)] of them, and every call gives ids, embeddings and
    documents of its batch position by position.  An empty list makes no
    call. *)
Theorem ingest_batch_adds_every_article (articles : list NewsArticle)
        (calls : list (AddCall Embedding)) :
  (forall a, In a articles -> generate_embedding (content a) = Returned (embedding_of a)) ->
  exists batches : list (list NewsArticle),
    concat batches = articles
    /\ List.Forall (fun b => (1 <= length b <= 50)%nat) batches
    /\ length batches = ((length articles + 49) / 50)%nat
    /\ ingest_batch articles calls
       = (Returned tt, calls ++ map (fun b => add_call_of b) batches).
Proof.
  intros Hok. set (n := length articles). set (m := ((n + 50 - 1) / 50)%nat).
  pose proof (batch_count_bounds n) as Hm. fold m in Hm.
  exists (map (fun k => slice (k * BATCH_SIZE) articles) (seq 0 m)).
  split; [| split; [| split]].
  - rewrite slices_concat. apply take_ge. unfold BATCH_SIZE. fold n. lia.
  - apply List.Forall_forall. intros b Hb. apply in_map_iff in Hb as (k & Hb & Hk).
    apply in_seq in Hk. subst b. rewrite length_take, length_drop. fold n.
    unfold BATCH_SIZE. lia.
  - rewrite length_map, length_seq. unfold m. f_equal. lia.
  - unfold Ingestion.ingest_batch.
    change (range_from_zero (length articles) BATCH_SIZE)
      with (map (fun k => (k * BATCH_SIZE)%nat) (seq 0 m)).
    rewrite <- (app_nil_r (map _ (seq 0 m))).
    rewrite ingest_from_prefix.
    + cbn [Ingestion.ingest_from]. unfold ret. rewrite !map_map. reflexivity.
    + intros i a _ Ha. apply Hok. eapply In_slice. exact Ha.
Qed.

(** X22. When the embedding of some article cannot be generated,
    [ingest_batch] raises at the batch of the first such article, with
    the error of an article of that batch: the full batches before it
    have been added, 50 articles each, and nothing of the failing batch
    or of a later one, so up to 49 articles whose embeddings were
    generated are left out with it. *)
Theorem ingest_batch_stops_at_failing_batch (good : list NewsArticle)
        (bad : NewsArticle) (rest : list NewsArticle) (e : PipelineError)
        (calls : list (AddCall Embedding)) :
  (forall a, In a good -> generate_embedding (content a) = Returned (embedding_of a)) ->
  generate_embedding (content bad) = Raised e ->
  let articles := good ++ bad :: rest in
  exists (batches : list (list NewsArticle)) (failed : NewsArticle)
         (raised : PipelineError),
    concat batches = take (length good / 50 * 50) articles
    /\ List.Forall (fun b => length b = 50%nat) batches
    /\ In failed (slice (length good / 50 * 50) articles)
    /\ generate_embedding (content failed) = Raised raised
    /\ ingest_batch articles calls
       = (Raised raised, calls ++ map (fun b => add_call_of b) batches).
Proof.
  intros Hok Hbad. cbv zeta.
  set (articles := good ++ bad :: rest). set (p := length good).
  set (q := (p / 50)%nat).
  pose proof (floor_bounds p) as Hq. fold q in Hq.
  assert (Hn : length articles = (p + S (length rest))%nat)
    by (unfold articles; rewrite length_app; reflexivity).
  set (m := ((length articles + 50 - 1) / 50)%nat).
  pose proof (batch_count_bounds (length articles)) as Hm. fold m in Hm.
  assert (Hqm : (q < m)%nat) by lia.
  assert (Hslice : exists near tail,
             slice (q * BATCH_SIZE) articles = near ++ bad :: tail
             /\ forall a, In a near -> In a good).
  { exists (drop (q * 50) good).
    destruct (BATCH_SIZE - length (drop (q * 50) good))%nat as [| j] eqn:Hj.
    - rewrite length_drop in Hj. fold p in Hj. unfold BATCH_SIZE in Hj. lia.
    - exists (take j rest). split.
      + change (q * BATCH_SIZE)%nat with (q * 50)%nat.
        unfold articles. rewrite drop_app_le by (fold p; lia).
        rewrite take_app_ge
          by (rewrite length_drop; fold p; unfold BATCH_SIZE; lia).
        rewrite Hj. reflexivity.
      + intros a Ha. apply list_elem_of_In in Ha. apply list_elem_of_In.
        eapply subseteq_drop. exact Ha. }
  destruct Hslice as (near & tail & Hslice & Hnear).
  exists (map (fun k => slice (k * BATCH_SIZE) articles) (seq 0 q)), bad, e.
  split; [| split; [| split; [| split]]].
  - apply slices_concat.
  - apply List.Forall_forall. intros b Hb. apply in_map_iff in Hb as (k & Hb & Hk).
    apply in_seq in Hk. subst b. rewrite length_take, length_drop.
    unfold BATCH_SIZE. lia.
  - change (q * 50)%nat with (q * BATCH_SIZE)%nat. rewrite Hslice.
    apply in_or_app. right. left. reflexivity.
  - exact Hbad.
  - unfold Ingestion.ingest_batch.
    change (range_from_zero (length articles) BATCH_SIZE)
      with (map (fun k => (k * BATCH_SIZE)%nat) (seq 0 m)).
    replace m with (q + S (m - S q))%nat by lia.
    rewrite seq_app, map_app. cbn [seq map plus].
    rewrite ingest_from_prefix.
    + cbn [Ingestion.ingest_from]. unfold bind at 1, call at 1.
      rewrite Hslice.
      rewrite (gather_first_failure near bad tail e)
        by (first [ exact Hbad | intros a Ha; apply Hok, Hnear, Ha ]).
      rewrite !map_map. reflexivity.
    + intros i a Hi Ha. apply in_map_iff in Hi as (k & Hi & Hk).
      apply in_seq in Hk. subst i. apply Hok.
      unfold articles in Ha.
      rewrite drop_app_le in Ha by (fold p; unfold BATCH_SIZE; lia).
      rewrite take_app_le in Ha by (rewrite length_drop; fold p; unfold BATCH_SIZE; lia).
      eapply In_slice. exact Ha.
Qed.

End BatchFacts.

Lemma ingest_batch_adds_every_article_witness :
  exists batches : list (list NewsArticle),
    concat batches = [mkArticle "n1" "alpha"; mkArticle "n2" "beta"]
    /\ List.Forall (fun b => (1 <= length b <= 50)%nat) batches
    /\ length batches = 1%nat
    /\ Ingestion.ingest_batch (fun t => Returned (String.length t))
         [mkArticle "n1" "alpha"; mkArticle "n2" "beta"] []
       = (Returned tt,
          [] ++ map (fun b => mkAddCall (map article_id b)
                                (map (fun a => String.length (content a)) b)
                                (map content b)) batches).
Proof.
  apply (ingest_batch_adds_every_article nat (fun t => Returned (String.length t))
           (fun a => String.length (content a))
           [mkArticle "n1" "alpha"; mkArticle "n2" "beta"] []).
  intros a _. reflexivity.
Defined.

Lemma ingest_batch_stops_at_failing_batch_witness :
  exists raised,
    Ingestion.ingest_batch
      (fun t => if String.eqb t "" then Raised InvalidInputError
                else Returned (String.length t))
      [mkArticle "n1" "alpha"; mkArticle "n2" ""; mkArticle "n3" "gamma"] []
    = (Raised raised, []).
Proof.
  destruct (ingest_batch_stops_at_failing_batch nat
              (fun t => if String.eqb t "" then Raised InvalidInputError
                        else Returned (String.length t))
              (fun a => String.length (content a))
              [mkArticle "n1" "alpha"] (mkArticle "n2" "") [mkArticle "n3" "gamma"]
              InvalidInputError [])
    as (batches & failed & raised & Hconcat & Hfull & _ & _ & Hrun).
  - intros a [Ha | []]. subst a. reflexivity.
  - reflexivity.
  - exists raised. cbn in Hconcat. destruct batches as [| b batches].
    + exact Hrun.
    + apply List.Forall_inv in Hfull. destruct b; [discriminate | discriminate].
Defined.

End IngestionProofs.

(* ===================================================================== *)
(** * Further properties of the impact mapping loop *)
(* ===================================================================== *)

Module ImpactExtras.
Import Impact.

Section LoopFacts.

Variable lookup_company : string -> Company.
Variable get_sector_peers : string -> list Company.
Variable get_regulated_companies : string -> list Company.

Abbreviation collect := (collect_impacts lookup_company get_sector_peers get_regulated_companies).
Abbreviation rows_of := (rows_of_entity lookup_company get_sector_peers get_regulated_companies).

Lemma rows_of_other_entity (e : Entity) :
  match entity_type e with COMPANY | REGULATOR => false | _ => true end = true ->
  rows_of e = [].
Proof. unfold rows_of_entity. destruct (entity_type e); intros H; try discriminate; reflexivity. Qed.

(** X23. The rows of the mapping loop come from companies and regulators
    only: entities of any other type add nothing, no row has the
    SUPPLY_CHAIN type of the [IMPACT_TYPES] table, and a SECTOR row is
    never there without the DIRECT row, at confidence 1.0, of a company
    entity of the input. *)
Theorem impact_rows_come_from_companies_and_regulators (entities : list Entity) :
  collect entities
  = collect (List.filter (fun e => match entity_type e with
                                   | COMPANY | REGULATOR => true
                                   | _ => false
                                   end) entities)
  /\ (forall r, In r (collect entities) -> type r <> SUPPLY_CHAIN)
  /\ (forall r, In r (collect entities) -> type r = SECTOR ->
      exists e, In e entities /\ entity_type e = COMPANY
                /\ In (mkRow (symbol (lookup_company (entity_value e))) DIRECT 1.0)
                      (collect entities)
                /\ In (stock r)
                      (map symbol
                           (get_sector_peers (sector (lookup_company (entity_value e)))))).
Proof.
  split; [| split].
  - unfold collect_impacts. induction entities as [| e entities IH]; [reflexivity |].
    cbn [flat_map List.filter]. destruct (entity_type e) eqn:Ht;
      cbn [flat_map]; rewrite <- IH; try reflexivity;
      rewrite rows_of_other_entity by (rewrite Ht; reflexivity); reflexivity.
  - intros r Hr. unfold collect_impacts in Hr. apply in_flat_map in Hr as (e & _ & Hr).
    unfold rows_of_entity in Hr. destruct (entity_type e); cbn in Hr; try contradiction.
    + destruct Hr as [Heq | Hr]; [subst r; discriminate |].
      apply in_map_iff in Hr as (peer & Heq & _). subst r. discriminate.
    + apply in_map_iff in Hr as (c & Heq & _). subst r. discriminate.
  - intros r Hr Hsector. unfold collect_impacts in Hr.
    apply in_flat_map in Hr as (e & He & Hr).
    unfold rows_of_entity in Hr. destruct (entity_type e) eqn:Ht; cbn in Hr;
      try contradiction.
    + destruct Hr as [Heq | Hr]; [subst r; discriminate |].
      exists e. split; [exact He |]. split; [exact Ht |]. split.
      * unfold collect_impacts. apply in_flat_map. exists e. split; [exact He |].
        unfold rows_of_entity. rewrite Ht. left. reflexivity.
      * apply in_map_iff in Hr as (peer & Heq & Hpeer). subst r. cbn [stock].
        apply in_map. exact Hpeer.
    + apply in_map_iff in Hr as (c & Heq & _). subst r. discriminate.
Qed.

End LoopFacts.

End ImpactExtras.

(* ===================================================================== *)
(** * Further properties of result ranking *)
(* ===================================================================== *)

Module QueryExtras.
Import Query.

Section ScoreFacts.

Context {QueryT : Type}.
Variable now : Z.
Variable has_direct_entity_match : QueryT -> Result -> bool.
Variable has_sector_match : QueryT -> Result -> bool.

Abbreviation score := (score_of now has_direct_entity_match has_sector_match).
Abbreviation ranked := (rank_results now has_direct_entity_match has_sector_match).
Abbreviation scored query r := (set_final_score r (score query r)).

Lemma inject_Z_nonneg (z : Z) : 0 <= z -> (0 <= inject_Z z)%Q.
Proof. intros Hz. unfold Qle. cbn. lia. Qed.

Lemma inject_Z_mono (a b : Z) : a <= b -> (inject_Z a <= inject_Z b)%Q.
Proof. intros Hab. unfold Qle. cbn. lia. Qed.

Lemma recency_bounds (r : Result) :
  published_date r <= now ->
  (0 <= Query.recency_bonus now r <= 0.2)%Q.
Proof.
  intros Hpast. unfold Query.recency_bonus. split; [apply Q.le_max_l |].
  assert (Hdays : 0 <= days_old now r)
    by (unfold days_old; apply Z.div_pos; lia).
  apply inject_Z_nonneg in Hdays.
  apply Q.max_lub; lra.
Qed.

Lemma recency_mono (a b : Result) :
  published_date a <= published_date b ->
  (Query.recency_bonus now a <= Query.recency_bonus now b)%Q.
Proof.
  intros Hdate. unfold Query.recency_bonus.
  assert (Hdays : days_old now b <= days_old now a)
    by (unfold days_old; apply Z.div_le_mono; lia).
  apply inject_Z_mono in Hdays.
  apply Q.max_le_compat_l. lra.
Qed.

Lemma recency_stale (r : Result) :
  10 <= days_old now r -> (Query.recency_bonus now r == 0)%Q.
Proof.
  intros Hold. unfold Query.recency_bonus.
  apply inject_Z_mono in Hold. change (inject_Z 10) with 10%Q in Hold.
  apply Q.max_l. lra.
Qed.

(** X24. With similarities between 0 and 1 and no result dated in the
    future, every score [rank_results] writes lies between 0 and 1. *)
Theorem scores_within_unit_interval (query : QueryT) (results : list Result) :
  (forall r, In r results ->
             (0 <= vector_similarity r <= 1)%Q /\ published_date r <= now) ->
  forall r, In r (ranked query results) -> (0 <= final_score r <= 1)%Q.
Proof.
  intros Hok r Hr. unfold rank_results in Hr.
  apply StableSortProofs.sort_In, in_map_iff in Hr as (r0 & Heq & Hin). subst r.
  cbn [final_score set_final_score].
  destruct (Hok r0 Hin) as [Hsim Hpast].
  pose proof (recency_bounds r0 Hpast) as Hrec.
  rewrite (QueryProofs.score_of_closed_form now has_direct_entity_match has_sector_match).
  unfold Query.entity_bonus, original_bonus.
  destruct (has_direct_entity_match query r0), (has_sector_match query r0),
    (is_original r0); lra.
Qed.

(** X25. Between two results that agree in similarity and in their
    matches and flags, the one published later never scores lower, and
    once both are ten days old or more the publication date has no effect
    on the score. *)
Theorem later_date_never_scores_lower (query : QueryT) (a b : Result) :
  (vector_similarity a == vector_similarity b)%Q ->
  has_direct_entity_match query a = has_direct_entity_match query b ->
  has_sector_match query a = has_sector_match query b ->
  is_original a = is_original b ->
  published_date a <= published_date b ->
  (score query a <= score query b)%Q
  /\ (10 <= days_old now b -> (score query a == score query b)%Q).
Proof.
  intros Hsim Hdirect Hsector Horig Hdate.
  pose proof (recency_mono a b Hdate) as Hrec.
  rewrite !(QueryProofs.score_of_closed_form now has_direct_entity_match has_sector_match).
  unfold Query.entity_bonus, original_bonus.
  rewrite Hdirect, Hsector, Horig, Hsim. split.
  - destruct (has_direct_entity_match query b), (has_sector_match query b),
      (is_original b); lra.
  - intros Hold.
    assert (Holda : 10 <= days_old now a).
    { eapply Z.le_trans; [exact Hold |]. unfold days_old. apply Z.div_le_mono; lia. }
    rewrite (recency_stale a Holda), (recency_stale b Hold). reflexivity.
Qed.

(** X26. An original article stands before a duplicate that agrees with
    it in similarity, publication date and matches: the 0.1 bonus puts
    it strictly ahead, wherever the two were in the input. *)
Theorem original_ranks_before_duplicate (query : QueryT) (results : list Result)
        (original duplicate : Result) :
  In original results -> In duplicate results ->
  is_original original = true -> is_original duplicate = false ->
  (vector_similarity original == vector_similarity duplicate)%Q ->
  published_date original = published_date duplicate ->
  has_direct_entity_match query original = has_direct_entity_match query duplicate ->
  has_sector_match query original = has_sector_match query duplicate ->
  exists before between after,
    ranked query results
    = before ++ scored query original :: between ++ scored query duplicate :: after.
Proof.
  intros Ho Hd Horig Hdup Hsim Hdate Hdirect Hsector.
  unfold rank_results.
  apply (StableSortProofs.sorted_strict_before by_final_score_desc
           QueryProofs.by_final_score_desc_total).
  - apply StableSortProofs.sort_sorted;
      [apply QueryProofs.by_final_score_desc_total
      | apply QueryProofs.by_final_score_desc_trans].
  - apply StableSortProofs.sort_In.
    apply (in_map (fun r => set_final_score r (score query r))). exact Ho.
  - apply StableSortProofs.sort_In.
    apply (in_map (fun r => set_final_score r (score query r))). exact Hd.
  - unfold by_final_score_desc. cbn [final_score set_final_score].
    destruct (Qle_bool (score query original) (score query duplicate)) eqn:Hle;
      [| reflexivity].
    exfalso. apply Qle_bool_iff in Hle. revert Hle.
    rewrite !(QueryProofs.score_of_closed_form now has_direct_entity_match has_sector_match).
    unfold Query.entity_bonus, original_bonus, Query.recency_bonus, days_old.
    rewrite Hdirect, Hsector, Horig, Hdup, Hsim, Hdate.
    destruct (has_direct_entity_match query duplicate),
      (has_sector_match query duplicate); lra.
Qed.

End ScoreFacts.

Lemma scores_within_unit_interval_witness :
  (0 <= final_score
          (set_final_score toy_newer
             (score_of toy_now (fun (_ : unit) _ => false) (fun _ _ => false) tt toy_newer))
   <= 1)%Q.
Proof.
  apply (scores_within_unit_interval toy_now (fun (_ : unit) _ => false)
           (fun _ _ => false) tt [toy_older; toy_newer]).
  - intros r [Hr | [Hr | []]]; subst r; vm_compute; intuition discriminate.
  - vm_compute. right; left; reflexivity.
Defined.

Lemma later_date_never_scores_lower_witness :
  (score_of toy_now (fun (_ : unit) _ => false) (fun _ _ => false) tt toy_older
   <= score_of toy_now (fun (_ : unit) _ => false) (fun _ _ => false) tt toy_newer)%Q.
Proof.
  apply (later_date_never_scores_lower toy_now (fun (_ : unit) _ => false)
           (fun _ _ => false) tt toy_older toy_newer); try reflexivity.
  vm_compute. discriminate.
Defined.

Lemma original_ranks_before_duplicate_witness :
  exists before between after,
    toy_rank [mkResult "copy" 0.5 toy_now false 0; mkResult "first" 0.5 toy_now true 0]
    = before
      ++ set_final_score (mkResult "first" 0.5 toy_now true 0)
           (score_of toy_now (fun (_ : unit) _ => false) (fun _ _ => false) tt
              (mkResult "first" 0.5 toy_now true 0))
      :: between
      ++ set_final_score (mkResult "copy" 0.5 toy_now false 0)
           (score_of toy_now (fun (_ : unit) _ => false) (fun _ _ => false) tt
              (mkResult "copy" 0.5 toy_now false 0))
      :: after.
Proof.
  apply (original_ranks_before_duplicate toy_now (fun (_ : unit) _ => false)
           (fun _ _ => false) tt
           [mkResult "copy" 0.5 toy_now false 0; mkResult "first" 0.5 toy_now true 0]);
    try reflexivity.
  - right; left; reflexivity.
  - left; reflexivity.
Defined.

End QueryExtras.

(* ===================================================================== *)
(** * Further properties of the sentiment guard *)
(* ===================================================================== *)

Module SentimentExtras.
Import Errors Sentiment Whitespace.

Lemma only_whitespace_cons (c : N) (ws : str) :
  only_whitespace (c :: ws) = true -> isspace c = true /\ only_whitespace ws = true.
Proof. unfold only_whitespace. cbn [forallb]. apply andb_true_iff. Qed.

Lemma lstrip_blank (ws : str) : only_whitespace ws = true -> lstrip ws = [].
Proof.
  induction ws as [| c ws IH]; [reflexivity |].
  intros H. apply only_whitespace_cons in H as [Hc Hws].
  cbn [lstrip]. rewrite Hc. exact (IH Hws).
Qed.

Lemma rstrip_blank (ws : str) : only_whitespace ws = true -> rstrip ws = [].
Proof.
  induction ws as [| c ws IH]; [reflexivity |].
  intros H. apply only_whitespace_cons in H as [Hc Hws].
  cbn [rstrip]. rewrite (IH Hws), Hc. reflexivity.
Qed.

Lemma lstrip_pad_left (ws s : str) :
  only_whitespace ws = true -> lstrip (ws ++ s) = lstrip s.
Proof.
  induction ws as [| c ws IH]; [reflexivity |].
  intros H. apply only_whitespace_cons in H as [Hc Hws].
  cbn [app lstrip]. rewrite Hc. exact (IH Hws).
Qed.

Lemma rstrip_pad_right (s ws : str) :
  only_whitespace ws = true -> rstrip (s ++ ws) = rstrip s.
Proof.
  intros Hws. induction s as [| c s IH].
  - cbn [app]. rewrite (rstrip_blank ws Hws). reflexivity.
  - cbn [app rstrip]. rewrite IH. reflexivity.
Qed.

Lemma lstrip_pad_right (s ws : str) :
  only_whitespace ws = true ->
  lstrip (s ++ ws) = lstrip s ++ ws
  \/ (lstrip s = [] /\ lstrip (s ++ ws) = []).
Proof.
  intros Hws. induction s as [| c s IH].
  - right. split; [reflexivity |]. exact (lstrip_blank ws Hws).
  - cbn [app lstrip]. destruct (isspace c); [exact IH |].
    left. reflexivity.
Qed.

Lemma strip_padding (left_pad s right_pad : str) :
  only_whitespace left_pad = true -> only_whitespace right_pad = true ->
  strip (left_pad ++ s ++ right_pad) = strip s.
Proof.
  intros Hl Hr. unfold strip. rewrite (lstrip_pad_left _ _ Hl).
  destruct (lstrip_pad_right s right_pad Hr) as [Heq | [Hs Heq]].
  - rewrite Heq. apply rstrip_pad_right, Hr.
  - rewrite Heq, Hs. reflexivity.
Qed.

(** X27. [analyze] skips every text of fewer than 50 characters, and
    whitespace around a text never changes whether it is skipped: padded
    on either side with whitespace only, of any kind [str.strip()]
    removes, a text is skipped exactly when the unpadded text is. *)
Theorem analyze_guard_ignores_padding {SentimentResult : Type}
        (inference : str -> SentimentResult) (left_pad text right_pad : str) :
  only_whitespace left_pad = true -> only_whitespace right_pad = true ->
  (analyze inference (left_pad ++ text ++ right_pad) = None
   <-> analyze inference text = None)
  /\ ((length text < 50)%nat -> analyze inference text = None).
Proof.
  intros Hl Hr. split.
  - unfold analyze. rewrite (strip_padding _ _ _ Hl Hr).
    destruct (length (strip text) <? 50)%nat eqn:Hshort.
    + rewrite !orb_true_r. tauto.
    + rewrite !orb_false_r.
      assert (Hlong : (50 <= length (strip text))%nat)
        by (apply Nat.ltb_ge; exact Hshort).
      assert (Htext : text <> []).
      { intros Heq. subst text. cbn in Hlong. lia. }
      assert (Hpadded : left_pad ++ text ++ right_pad <> []).
      { intros Heq. rewrite <- (strip_padding _ _ _ Hl Hr), Heq in Hlong.
        cbn in Hlong. lia. }
      destruct text as [| c text]; [contradiction |].
      destruct (left_pad ++ (c :: text) ++ right_pad) as [| c' padded];
        [contradiction |].
      split; discriminate.
  - intros Hshort. unfold analyze.
    assert (Hlt : (length (strip text) <? 50)%nat = true).
    { apply Nat.ltb_lt. pose proof (SentimentProofs.strip_length text). lia. }
    rewrite Hlt, orb_true_r. reflexivity.
Qed.

Lemma analyze_guard_ignores_padding_witness :
  analyze (fun text => text) ([160; 8195] ++ str_of "TCS wins" ++ [12288])%N = None.
Proof.
  apply (proj1 (analyze_guard_ignores_padding (fun text => text)
                  [160; 8195]%N (str_of "TCS wins") [12288]%N eq_refl eq_refl)).
  apply (proj2 (analyze_guard_ignores_padding (fun text => text)
                  [160; 8195]%N (str_of "TCS wins") [12288]%N eq_refl eq_refl)).
  vm_compute. lia.
Defined.

End SentimentExtras.

(* ===================================================================== *)
(** * The order of binary64 numbers *)
(* ===================================================================== *)

Module Binary64Proofs.

(** Comparison case by case, on the specification of the floats. *)
Ltac order_cases :=
  repeat match goal with
         | |- context [ (?a ?= ?b)%Z ] => destruct (Z.compare_spec a b)
         | |- context [ Pos.compare_cont Eq ?a ?b ] =>
             change (Pos.compare_cont Eq a b) with (Pos.compare a b);
             destruct (Pos.compare_spec a b)
         end.

Lemma SFleb_trans (a b c : spec_float) :
  SFleb a b = true -> SFleb b c = true -> SFleb a c = true.
Proof.
  unfold SFleb, SFcompare.
  destruct a as [sa | sa | | sa ma ea], b as [sb | sb | | sb mb eb],
    c as [sc | sc | | sc mc ec];
    try destruct sa; try destruct sb; try destruct sc;
    try (intros; discriminate); try (intros; reflexivity);
    order_cases; cbn; intros; try discriminate; try reflexivity; try lia.
Qed.

Lemma SFleb_total (a b : spec_float) :
  SFeqb a a = true -> SFeqb b b = true -> SFleb a b = true \/ SFleb b a = true.
Proof.
  unfold SFleb, SFeqb, SFcompare.
  destruct a as [sa | sa | | sa ma ea], b as [sb | sb | | sb mb eb];
    try destruct sa; try destruct sb;
    try (intros; discriminate); try (intros; auto; fail);
    intros _ _; order_cases; cbn; auto; try lia.
Qed.

Lemma SFeqb_leb (a b : spec_float) : SFeqb a b = SFleb a b && SFleb b a.
Proof.
  unfold SFleb, SFeqb, SFcompare.
  destruct a as [sa | sa | | sa ma ea], b as [sb | sb | | sb mb eb];
    try destruct sa; try destruct sb; try reflexivity;
    order_cases; cbn; try reflexivity; try lia.
Qed.

(** [<=] on floats is transitive, total on numbers, and two floats are
    equal when each is at most the other; a comparison with NaN is
    false. *)
Lemma leb_trans (x y z : float) :
  (x <=? y)%float = true -> (y <=? z)%float = true -> (x <=? z)%float = true.
Proof. rewrite !FloatAxioms.leb_spec. apply SFleb_trans. Qed.

Lemma leb_total (x y : float) :
  is_nan x = false -> is_nan y = false ->
  (x <=? y)%float = true \/ (y <=? x)%float = true.
Proof.
  unfold is_nan. intros Hx Hy. apply negb_false_iff in Hx, Hy.
  rewrite FloatAxioms.eqb_spec in Hx, Hy. rewrite !FloatAxioms.leb_spec. apply SFleb_total; assumption.
Qed.

Lemma eqb_leb (x y : float) : (x =? y)%float = ((x <=? y) && (y <=? x))%float.
Proof. rewrite FloatAxioms.eqb_spec, !FloatAxioms.leb_spec. apply SFeqb_leb. Qed.

Lemma leb_nan_l (x y : float) : is_nan x = true -> (x <=? y)%float = false.
Proof.
  unfold is_nan. intros Hx. apply negb_true_iff in Hx. rewrite FloatAxioms.eqb_spec in Hx.
  rewrite FloatAxioms.leb_spec. revert Hx. unfold SFeqb, SFleb, SFcompare.
  destruct (Prim2SF x) as [sa | sa | | sa ma ea]; try destruct sa;
    try discriminate; try reflexivity.
  - change (Pos.compare_cont Eq ma ma) with (Pos.compare ma ma).
    rewrite Z.compare_refl, Pos.compare_refl. discriminate.
  - change (Pos.compare_cont Eq ma ma) with (Pos.compare ma ma).
    rewrite Z.compare_refl, Pos.compare_refl. discriminate.
Qed.

Lemma leb_nan_r (x y : float) : is_nan y = true -> (x <=? y)%float = false.
Proof.
  unfold is_nan. intros Hy. apply negb_true_iff in Hy. rewrite FloatAxioms.eqb_spec in Hy.
  rewrite FloatAxioms.leb_spec. revert Hy. unfold SFeqb, SFleb, SFcompare.
  destruct (Prim2SF y) as [sa | sa | | sa ma ea]; try destruct sa;
    try discriminate;
    try (destruct (Prim2SF x) as [sb | sb | | sb mb eb]; reflexivity).
  - change (Pos.compare_cont Eq ma ma) with (Pos.compare ma ma).
    rewrite Z.compare_refl, Pos.compare_refl. discriminate.
  - change (Pos.compare_cont Eq ma ma) with (Pos.compare ma ma).
    rewrite Z.compare_refl, Pos.compare_refl. discriminate.
Qed.

End Binary64Proofs.

(* ===================================================================== *)
(** * Sorting with an order that is total on the list only *)
(* ===================================================================== *)

Module SortAgreement.
Import StableSort.

Section TwoOrders.

Context {A : Type}.
Variables leb1 leb2 : A -> A -> bool.

Lemma insert_agree (x : A) (l : list A) :
  (forall y, In y l -> leb1 x y = leb2 x y) ->
  insert leb1 x l = insert leb2 x l.
Proof.
  induction l as [| y l IH]; intros Hagree; [reflexivity |].
  cbn [insert]. rewrite (Hagree y) by (left; reflexivity).
  destruct (leb2 x y); [reflexivity |]. f_equal. apply IH.
  intros z Hz. apply Hagree. right. exact Hz.
Qed.

Lemma sort_agree (l : list A) :
  (forall x y, In x l -> In y l -> leb1 x y = leb2 x y) ->
  sort leb1 l = sort leb2 l.
Proof.
  induction l as [| x l IH]; intros Hagree; [reflexivity |].
  cbn [sort]. rewrite IH by (intros a b Ha Hb; apply Hagree; right; assumption).
  apply insert_agree. intros y Hy. apply StableSortProofs.sort_In in Hy.
  apply Hagree; [left; reflexivity | right; exact Hy].
Qed.

End TwoOrders.

Lemma StronglySorted_relate {A : Type} (R R' : A -> A -> Prop) (l : list A) :
  (forall a b, In a l -> In b l -> R a b -> R' a b) ->
  StronglySorted R l -> StronglySorted R' l.
Proof.
  intros Himpl Hs. induction Hs as [| a l Hs IH Hall]; constructor.
  - apply IH. intros x y Hx Hy. apply Himpl; right; assumption.
  - rewrite List.Forall_forall in *. intros x Hx.
    apply Himpl; [left; reflexivity | right; exact Hx | apply Hall, Hx].
Qed.

End SortAgreement.

(* ===================================================================== *)
(** * Properties of result ranking in binary64 *)
(* ===================================================================== *)

Module QueryRankingProofs.
Import Binary64 QueryRanking.

Section RankingFacts.

Context {QueryT : Type}.
Variable now : Z.
Variable has_direct_entity_match : QueryT -> Result -> bool.
Variable has_sector_match : QueryT -> Result -> bool.

Abbreviation score := (score_of now has_direct_entity_match has_sector_match).
Abbreviation ranked := (rank_results now has_direct_entity_match has_sector_match).
Abbreviation scored query := (map (fun r => set_final_score r (score query r))).

(** The order of the sort with NaN put last, which is total. *)
Abbreviation nan_last :=
  (fun a b : Result =>
     ((final_score b <=? final_score a)%float || is_nan (final_score b))%bool).

Lemma nan_last_total (a b : Result) : nan_last a b = true \/ nan_last b a = true.
Proof.
  cbv beta.
  destruct (is_nan (final_score a)) eqn:Ha; [right; apply orb_true_r |].
  destruct (is_nan (final_score b)) eqn:Hb; [left; apply orb_true_r |].
  rewrite !orb_false_r. destruct (Binary64Proofs.leb_total _ _ Ha Hb); auto.
Qed.

Lemma nan_last_trans (a b c : Result) :
  nan_last a b = true -> nan_last b c = true -> nan_last a c = true.
Proof.
  cbv beta. intros Hab Hbc.
  destruct (is_nan (final_score c)) eqn:Hc; [apply orb_true_r |].
  rewrite orb_false_r in *.
  destruct (is_nan (final_score b)) eqn:Hb.
  - rewrite (Binary64Proofs.leb_nan_r _ _ Hb) in Hbc. discriminate.
  - rewrite orb_false_r in Hab. eapply Binary64Proofs.leb_trans; eassumption.
Qed.

Lemma scored_not_nan (query : QueryT) (results : list Result) :
  (forall r, In r results -> is_nan (score query r) = false) ->
  forall r, In r (scored query results) -> is_nan (final_score r) = false.
Proof.
  intros Hnum r Hr. apply in_map_iff in Hr as (r0 & <- & Hr0). apply Hnum, Hr0.
Qed.

Lemma ranked_nan_last (query : QueryT) (results : list Result) :
  (forall r, In r results -> is_nan (score query r) = false) ->
  ranked query results = StableSort.sort nan_last (scored query results).
Proof.
  intros Hnum. unfold rank_results. apply SortAgreement.sort_agree.
  intros a b Ha Hb. unfold by_final_score_desc.
  rewrite (scored_not_nan query results Hnum b Hb), orb_false_r. reflexivity.
Qed.

(** C2 (amended). [rank_results] gives every candidate the score the
    loop adds up in binary64, in this order: 0.0, plus its semantic
    similarity times 0.4, plus 0.3 for a direct entity match or else 0.15
    for a sector match, plus the recency bonus
    max(0, 0.2 - days since publication times 0.02) at full weight, plus
    0.1 when the article is an original; there is no penalty term.  When
    no score is NaN the returned list holds exactly the scored
    candidates, sorted by descending score, and candidates whose scores
    are equal as floats keep their input order. *)
Theorem rank_results_scored_and_sorted (query : QueryT) (results : list Result) :
  (forall r, In r results -> is_nan (score query r) = false) ->
  let out := ranked query results in
  Permutation (scored query results) out
  /\ (forall r, In r out ->
        exists r0, In r0 results
                   /\ r = set_final_score r0 (final_score r)
                   /\ final_score r
                      = (let base := 0.0 + vector_similarity r0 * 0.4 in
                         let matched :=
                           if has_direct_entity_match query r0 then base + 0.3
                           else if has_sector_match query r0 then base + 0.15
                           else base in
                         let recent :=
                           matched
                           + max_0 (0.2 - float_of_int (days_old now r0) * 0.02) in
                         if is_original r0 then recent + 0.1 else recent)%float)
  /\ StronglySorted (fun a b => (final_score b <=? final_score a)%float = true) out
  /\ (forall z, List.filter (fun r => (final_score r =? final_score z)%float) out
                = List.filter (fun r => (final_score r =? final_score z)%float)
                              (scored query results)).
Proof.
  intros Hnum. cbv zeta.
  assert (Hperm : Permutation (scored query results) (ranked query results))
    by apply StableSortProofs.sort_perm.
  assert (Hout : forall r, In r (ranked query results) -> is_nan (final_score r) = false).
  { intros r Hr. apply (scored_not_nan query results Hnum).
    eapply Permutation_in; [symmetry; exact Hperm | exact Hr]. }
  split; [exact Hperm |]. split; [| split].
  - intros r Hr. apply StableSortProofs.sort_In, in_map_iff in Hr as (r0 & <- & Hin).
    exists r0. split; [exact Hin |]. split; reflexivity.
  - apply (SortAgreement.StronglySorted_relate (fun a b => nan_last a b = true)).
    + intros a b _ Hb. cbv beta. rewrite (Hout b Hb), orb_false_r. auto.
    + rewrite (ranked_nan_last query results Hnum).
      apply StableSortProofs.sort_sorted; [apply nan_last_total | apply nan_last_trans].
  - intros z.
    assert (Hclass : forall l, (forall r, In r l -> is_nan (final_score r) = false) ->
              List.filter (fun r => (final_score r =? final_score z)%float) l
              = List.filter (StableSort.same_class nan_last z) l).
    { intros l Hl. apply List.filter_ext_in. intros r Hr.
      unfold StableSort.same_class. cbv beta. rewrite (Hl r Hr), orb_false_r.
      destruct (is_nan (final_score z)) eqn:Hz.
      - rewrite (Binary64Proofs.leb_nan_r _ _ Hz), Binary64Proofs.eqb_leb,
          (Binary64Proofs.leb_nan_r _ _ Hz). reflexivity.
      - rewrite orb_false_r, Binary64Proofs.eqb_leb. reflexivity. }
    rewrite (Hclass _ Hout), (Hclass _ (scored_not_nan query results Hnum)).
    rewrite (ranked_nan_last query results Hnum).
    apply StableSortProofs.sort_stable; [apply nan_last_total | apply nan_last_trans].
Qed.

End RankingFacts.

Lemma rank_results_scored_and_sorted_witness :
  StronglySorted (fun a b => (final_score b <=? final_score a)%float = true)
                 (toy_rank [toy_original; toy_duplicate]).
Proof.
  apply (rank_results_scored_and_sorted toy_now (fun (_ : unit) _ => true)
           (fun _ _ => false) tt [toy_original; toy_duplicate]).
  intros r [Hr | [Hr | []]]; subst r; reflexivity.
Defined.

(** The sums are those of binary64: the original adds up to 0.6 less one
    rounding step, the duplicate to 0.6 plus one, and stands first
    although the two sums are equal in exact arithmetic. *)
Example rank_results_rounds_as_floats :
  toy_rank [toy_original; toy_duplicate]
  = [ set_final_score toy_duplicate (0.0 + 0.75 * 0.4 + 0.3 + 0)%float;
      set_final_score toy_original (0.0 + 0.5 * 0.4 + 0.3 + 0 + 0.1)%float ]
  /\ (0.0 + 0.5 * 0.4 + 0.3 + 0 + 0.1 <? 0.0 + 0.75 * 0.4 + 0.3 + 0)%float = true.
Proof. split; reflexivity. Qed.

End QueryRankingProofs.
